(** * workers_share: the envelope-encryption protocol of [src/index.ts]

    A shallow embedding of the Worker's two API handlers, [/api/share] and
    [/api/retrieve], together with the helpers they call ([buf2hex],
    [encryptData], [decryptData], [getMasterKey]).

    What the repository's code computes itself is modelled concretely: the
    hex codec, the control flow of the handlers and their error mapping.  The
    text codecs of the platform ([TextEncoder], [TextDecoder], [Request.text])
    are modelled after the WHATWG Encoding Standard, [parseInt] and the
    regular expression [/.{1,2}/g] after ECMA-262.  The cryptographic
    primitives (AES-GCM, SHA-256) and [JSON] are a parameter of the model, a
    record [Platform]; what a theorem needs from them is a named contract.
    The D1 table [shares] is a finite map from identifiers to rows. *)

From Stdlib Require Import ZArith Lia List String Ascii.
From Stdlib.Strings Require Import Byte.
From stdpp Require Import gmap list.
Import ListNotations.
Local Open Scope Z_scope.

(** ** JavaScript data *)

(** A JavaScript string is a sequence of UTF-16 code units; [length] is the
    [.length] property. *)
Definition jsstring : Type := list Z.

Definition is_code_unit (c : Z) : Prop := 0 <= c < 65536.

(** A string literal of the source. *)
Definition js (s : string) : jsstring :=
  map (fun a => Z.of_N (N_of_ascii a)) (list_ascii_of_string s).

(** The elements of a [Uint8Array]. *)
Definition Z_of_byte (b : byte) : Z := Z.of_N (Byte.to_N b).

Definition byte_of_Z (z : Z) : byte :=
  match Byte.of_N (Z.to_N (z mod 256)) with
  | Some b => b
  | None => x00
  end.

(** Exceptions, and the outcome of an expression that may throw. *)
Inductive JSError : Type :=
| TypeError
| DataError
| OperationError
| SyntaxError
| D1_ERROR
| Error (message : string).

Inductive result (A : Type) : Type :=
| Ok (a : A)
| Throw (e : JSError).
Arguments Ok {A} a.
Arguments Throw {A} e.

Definition bind {A B : Type} (m : result A) (k : A -> result B) : result B :=
  match m with
  | Ok a => k a
  | Throw e => Throw e
  end.

Notation "x <- m ;; k" := (bind m (fun x => k))
  (at level 100, m at next level, right associativity).

(** [try { m } catch (e) { h e }] around an expression. *)
Definition try_catch {A : Type} (m : result A) (h : JSError -> A) : A :=
  match m with
  | Ok a => a
  | Throw e => h e
  end.

(** ** The hex codec *)

(** [x.toString(16)] for a byte [x]: lower-case digits, no leading zero. *)
Definition hex_digit (d : Z) : Z := if d <? 10 then 48 + d else 87 + d.

Definition Number_toString16 (x : Z) : jsstring :=
  if x <? 16 then [hex_digit x] else [hex_digit (x / 16); hex_digit (x mod 16)].

(** [s.padStart(2, '0')]. *)
Definition padStart2 (s : jsstring) : jsstring :=
  repeat 48 (2 - length s)%nat ++ s.

(** [[...new Uint8Array(buffer)].map(x => x.toString(16).padStart(2, '0')).join('')] *)
Definition buf2hex (buffer : list byte) : jsstring :=
  concat (map (fun x => padStart2 (Number_toString16 (Z_of_byte x))) buffer).

(** ECMA-262 LineTerminator: the characters [.] does not match. *)
Definition is_line_terminator (c : Z) : bool :=
  (c =? 10) || (c =? 13) || (c =? 8232) || (c =? 8233).

(** ECMA-262 WhiteSpace (TAB, VT, FF, SP, NBSP, ZWNBSP and category Zs). *)
Definition is_white_space (c : Z) : bool :=
  (c =? 9) || (c =? 11) || (c =? 12) || (c =? 32) || (c =? 160) ||
  (c =? 5760) || ((8192 <=? c) && (c <=? 8202)) || (c =? 8239) ||
  (c =? 8287) || (c =? 12288) || (c =? 65279).

(** The matches of [/.{1,2}/g]: scanning left to right, two characters when
    two that are not line terminators follow each other, one otherwise; a line
    terminator is never part of a match. *)
Fixpoint regex_pairs (s : jsstring) : list jsstring :=
  match s with
  | [] => []
  | a :: rest =>
    if is_line_terminator a then regex_pairs rest
    else
      match rest with
      | [] => [[a]]
      | b :: rest' =>
        if is_line_terminator b then [a] :: regex_pairs rest'
        else [a; b] :: regex_pairs rest'
      end
  end.

(** [s.match(/.{1,2}/g)]: [null] (here [None]) when nothing matches. *)
Definition String_match_pairs (s : jsstring) : option (list jsstring) :=
  match regex_pairs s with
  | [] => None
  | l => Some l
  end.

(** [parseInt(s, 16)]; [None] is [NaN]. *)
Fixpoint trim_start (s : jsstring) : jsstring :=
  match s with
  | [] => []
  | c :: rest =>
    if is_white_space c || is_line_terminator c then trim_start rest else s
  end.

Definition digit_value (c : Z) : option Z :=
  if (48 <=? c) && (c <=? 57) then Some (c - 48)
  else if (97 <=? c) && (c <=? 122) then Some (c - 87)
  else if (65 <=? c) && (c <=? 90) then Some (c - 55)
  else None.

Fixpoint radix_digits (R : Z) (s : jsstring) : list Z :=
  match s with
  | [] => []
  | c :: rest =>
    match digit_value c with
    | Some d => if d <? R then d :: radix_digits R rest else []
    | None => []
    end
  end.

Definition parseInt16 (s : jsstring) : option Z :=
  let S1 := trim_start s in
  let sign := match S1 with 45 :: _ => -1 | _ => 1 end in
  let S2 := match S1 with
            | 43 :: r => r
            | 45 :: r => r
            | _ => S1
            end in
  let S3 := match S2 with
            | 48 :: x :: r => if (x =? 120) || (x =? 88) then r else S2
            | _ => S2
            end in
  match radix_digits 16 S3 with
  | [] => None
  | ds => Some (sign * fold_left (fun acc d => acc * 16 + d) ds 0)
  end.

(** Storing a number into a [Uint8Array]: [NaN] becomes 0, any other value is
    taken modulo 256. *)
Definition ToUint8 (n : option Z) : byte :=
  match n with
  | None => x00
  | Some v => byte_of_Z v
  end.

(** [new Uint8Array(s.match(/.{1,2}/g)!.map(byte => parseInt(byte, 16)))]:
    the [!] is erased by the compiler, so a [null] match throws a TypeError
    at [.map]. *)
Definition hexToBytes (s : jsstring) : result (list byte) :=
  match String_match_pairs s with
  | None => Throw TypeError
  | Some chunks => Ok (map (fun chunk => ToUint8 (parseInt16 chunk)) chunks)
  end.

(** ** The text codecs of the platform *)

Definition is_high_surrogate (c : Z) : bool := (0xD800 <=? c) && (c <=? 0xDBFF).
Definition is_low_surrogate (c : Z) : bool := (0xDC00 <=? c) && (c <=? 0xDFFF).

(** The scalar values of a string: a surrogate pair is one code point, a
    surrogate that is not part of a pair becomes U+FFFD. *)
Fixpoint scalar_values (s : jsstring) : list Z :=
  match s with
  | [] => []
  | c :: rest =>
    if is_high_surrogate c then
      match rest with
      | [] => [0xFFFD]
      | d :: rest' =>
        if is_low_surrogate d
        then (0x10000 + Z.shiftl (c - 0xD800) 10 + (d - 0xDC00)) :: scalar_values rest'
        else 0xFFFD :: scalar_values rest
      end
    else if is_low_surrogate c then 0xFFFD :: scalar_values rest
    else c :: scalar_values rest
  end.

(** The UTF-8 encoder of the Encoding Standard, on one scalar value. *)
Definition utf8_encode_code_point (c : Z) : list Z :=
  if c <=? 0x7F then [c]
  else if c <=? 0x7FF then
    [Z.shiftr c 6 + 0xC0; Z.lor 0x80 (Z.land c 0x3F)]
  else if c <=? 0xFFFF then
    [Z.shiftr c 12 + 0xE0;
     Z.lor 0x80 (Z.land (Z.shiftr c 6) 0x3F);
     Z.lor 0x80 (Z.land c 0x3F)]
  else
    [Z.shiftr c 18 + 0xF0;
     Z.lor 0x80 (Z.land (Z.shiftr c 12) 0x3F);
     Z.lor 0x80 (Z.land (Z.shiftr c 6) 0x3F);
     Z.lor 0x80 (Z.land c 0x3F)].

(** [new TextEncoder().encode(s)]. *)
Definition TextEncoder_encode (s : jsstring) : list byte :=
  map byte_of_Z (concat (map utf8_encode_code_point (scalar_values s))).

(** The UTF-8 decoder of the Encoding Standard, in replacement mode. *)
Record Utf8Decoder : Type := {
  code_point : Z;
  bytes_seen : Z;
  bytes_needed : Z;
  lower_boundary : Z;
  upper_boundary : Z
}.

Definition utf8_start : Utf8Decoder :=
  {| code_point := 0; bytes_seen := 0; bytes_needed := 0;
     lower_boundary := 0x80; upper_boundary := 0xBF |}.

(** A byte read while no sequence is open: the code point it yields, if any,
    and the decoder's next state. *)
Definition utf8_lead (b : Z) : option Z * Utf8Decoder :=
  if b <=? 0x7F then (Some b, utf8_start)
  else if (0xC2 <=? b) && (b <=? 0xDF) then
    (None, {| code_point := Z.land b 0x1F; bytes_seen := 0; bytes_needed := 1;
              lower_boundary := 0x80; upper_boundary := 0xBF |})
  else if (0xE0 <=? b) && (b <=? 0xEF) then
    (None, {| code_point := Z.land b 0xF; bytes_seen := 0; bytes_needed := 2;
              lower_boundary := if b =? 0xE0 then 0xA0 else 0x80;
              upper_boundary := if b =? 0xED then 0x9F else 0xBF |})
  else if (0xF0 <=? b) && (b <=? 0xF4) then
    (None, {| code_point := Z.land b 0x7; bytes_seen := 0; bytes_needed := 3;
              lower_boundary := if b =? 0xF0 then 0x90 else 0x80;
              upper_boundary := if b =? 0xF4 then 0x8F else 0xBF |})
  else (Some 0xFFFD, utf8_start).

Definition emit (o : option Z) (l : list Z) : list Z :=
  match o with
  | Some c => c :: l
  | None => l
  end.

Fixpoint utf8_decode (st : Utf8Decoder) (bs : list Z) : list Z :=
  match bs with
  | [] => if bytes_needed st =? 0 then [] else [0xFFFD]
  | b :: rest =>
    if bytes_needed st =? 0 then
      emit (fst (utf8_lead b)) (utf8_decode (snd (utf8_lead b)) rest)
    else if (lower_boundary st <=? b) && (b <=? upper_boundary st) then
      let c := Z.lor (Z.shiftl (code_point st) 6) (Z.land b 0x3F) in
      if bytes_seen st + 1 =? bytes_needed st then c :: utf8_decode utf8_start rest
      else utf8_decode {| code_point := c; bytes_seen := bytes_seen st + 1;
                          bytes_needed := bytes_needed st;
                          lower_boundary := 0x80; upper_boundary := 0xBF |} rest
    else
      (* the byte is put back and read again with no sequence open *)
      0xFFFD :: emit (fst (utf8_lead b)) (utf8_decode (snd (utf8_lead b)) rest)
  end.

(** A code point as UTF-16 code units. *)
Definition utf16_encode_code_point (c : Z) : jsstring :=
  if c <? 0x10000 then [c]
  else [0xD800 + Z.shiftr (c - 0x10000) 10; 0xDC00 + Z.land (c - 0x10000) 0x3FF].

(** The decoder drops one leading byte order mark ([ignoreBOM] is false). *)
Definition strip_BOM (cps : list Z) : list Z :=
  match cps with
  | c :: rest => if c =? 0xFEFF then rest else cps
  | [] => []
  end.

(** [new TextDecoder().decode(bytes)]: UTF-8, not fatal, [ignoreBOM] false. *)
Definition TextDecoder_decode (bytes : list byte) : jsstring :=
  concat (map utf16_encode_code_point
              (strip_BOM (utf8_decode utf8_start (map Z_of_byte bytes)))).

(** [await c.req.text()]: the body read as text is the same "UTF-8 decode". *)
Definition Request_text (body : list byte) : jsstring := TextDecoder_decode body.

(** ** The platform: Web Crypto and JSON *)

#[local] Unset Elimination Schemes.
Inductive JSValue : Type :=
| JNull
| JBool (b : bool)
| JNumber (literal : jsstring)
| JString (s : jsstring)
| JArray (elements : list JSValue)
| JObject (properties : list (jsstring * JSValue)).
#[local] Set Elimination Schemes.

Record Row : Type := { content : jsstring; created_at : Z }.

(** What the Worker runtime provides.  [AES_GCM_encrypt key iv plaintext] is
    ciphertext followed by the tag; [AES_GCM_decrypt] is [None] when
    [crypto.subtle.decrypt] rejects; [JSON_parse] is [None] on a SyntaxError;
    [D1_first_other] is what [first()] does on the table for a bound value
    that is not a string ([None] for [undefined]). *)
Record Platform : Type := {
  AES_GCM_encrypt : list byte -> list byte -> list byte -> list byte;
  AES_GCM_decrypt : list byte -> list byte -> list byte -> option (list byte);
  SHA_256 : list byte -> list byte;
  JSON_stringify : JSValue -> jsstring;
  JSON_parse : jsstring -> option JSValue;
  D1_first_other : gmap jsstring Row -> option JSValue -> result (option Row)
}.

(** [crypto.getRandomValues(new Uint8Array(n))]: [n] bytes of the random
    source. *)
Definition getRandomValues (n : nat) (source : nat -> byte) : list byte :=
  map source (seq 0 n).

(** The 16 bytes of a version 4 UUID: 122 random bits, the version and the
    variant in the layout of RFC 4122. *)
Definition uuid_bytes (source : nat -> byte) : list byte :=
  alter (fun x => byte_of_Z (Z.lor (Z.land (Z_of_byte x) 0x0F) 0x40)) 6%nat
    (alter (fun x => byte_of_Z (Z.lor (Z.land (Z_of_byte x) 0x3F) 0x80)) 8%nat
       (getRandomValues 16 source)).

(** [crypto.randomUUID()]: those bytes in lower-case hex, as 8-4-4-4-12. *)
Definition randomUUID (source : nat -> byte) : jsstring :=
  let b := uuid_bytes source in
  buf2hex (take 4 b) ++ js "-" ++ buf2hex (take 2 (drop 4 b)) ++ js "-" ++
  buf2hex (take 2 (drop 6 b)) ++ js "-" ++ buf2hex (take 2 (drop 8 b)) ++ js "-" ++
  buf2hex (drop 10 b).

(** [crypto.subtle.importKey('raw', keyBytes, {name: 'AES-GCM'}, ...)]: an AES
    key has 128, 192 or 256 bits. *)
Definition importKey (keyBytes : list byte) : result (list byte) :=
  if (length keyBytes =? 16)%nat || (length keyBytes =? 24)%nat ||
     (length keyBytes =? 32)%nat
  then Ok keyBytes else Throw DataError.

Section Helpers.
Variable P : Platform.

(** [encryptData]: IV followed by the encrypted data, as a hex string.
    [iv_source] is the random source the IV is drawn from. *)
Definition encryptData (plaintext : jsstring) (keyBytes : list byte)
    (iv_source : nat -> byte) : result jsstring :=
  key <- importKey keyBytes ;;
  let iv := getRandomValues 12 iv_source in
  let encrypted := AES_GCM_encrypt P key iv (TextEncoder_encode plaintext) in
  let combined := iv ++ encrypted in
  Ok (buf2hex combined).

(** [decryptData]. *)
Definition decryptData (hexStr : jsstring) (keyBytes : list byte)
    : result jsstring :=
  combined <- hexToBytes hexStr ;;
  let iv := take 12 combined in
  let data := drop 12 combined in
  key <- importKey keyBytes ;;
  match AES_GCM_decrypt P key iv data with
  | Some decrypted => Ok (TextDecoder_decode decrypted)
  | None => Throw (Error "Decryption failed")
  end.

(** [getMasterKey]. *)
Definition getMasterKey (secret : jsstring) : list byte :=
  SHA_256 P (TextEncoder_encode secret).
End Helpers.

(** ** The store *)

(** A statement the Worker has run: [INSERT INTO shares (id, content,
    created_at) VALUES (?, ?, ?)] with its three bound values. *)
Inductive Statement : Type :=
| INSERT_INTO_shares (id : jsstring) (content : jsstring) (created_at : Z).

(** Modelled from the spec: the schema of the table [shares] and the D1 engine
    are not part of the sources.  The spec's store contract is a mapping from
    an identifier to a sealed blob, [put(id, sealed_content, created_at)] and
    [get(id)], where a put on an identifier that is present overwrites the
    record.  [journal] lists the statements that have completed. *)
Record D1Database : Type := {
  shares : gmap jsstring Row;
  journal : list Statement
}.

Definition empty_database : D1Database := {| shares := ∅; journal := [] |}.

(** [DB.prepare('INSERT ...').bind(id, content, created_at).run()]; [fault]
    says that the database rejects the statement, which then changes nothing. *)
Definition D1_run_insert (db : D1Database) (id content : jsstring)
    (now : Z) (fault : bool) : result D1Database :=
  if fault then Throw D1_ERROR
  else Ok {| shares := <[id := {| content := content; created_at := now |}]> (shares db);
             journal := journal db ++ [INSERT_INTO_shares id content now] |}.

(** [DB.prepare('SELECT content FROM shares WHERE id = ?').bind(id).first()]. *)
Definition D1_first (P : Platform) (db : D1Database) (bound : option JSValue)
    : result (option Row) :=
  match bound with
  | Some (JString id) => Ok (shares db !! id)
  | other => D1_first_other P (shares db) other
  end.

(** ** The API *)

(** The [Bindings] of the Worker. *)
Record Bindings : Type := {
  DB : D1Database;
  SECRET_KEY : jsstring
}.

(** What one request draws from outside the program: the random sources of
    the UUID, of the data key and of the two IVs, the clock, and whether the
    database rejects the insert. *)
Record Draws : Type := {
  uuid_source : nat -> byte;
  dataKey_source : nat -> byte;
  content_iv_source : nat -> byte;
  token_iv_source : nat -> byte;
  Date_now : Z;
  D1_fault : bool
}.

Record Response : Type := { body : jsstring; status : Z }.

(** [c.text(text, status)]; the status is 200 when it is left out. *)
Definition c_text (text : jsstring) (status : Z) : Response :=
  {| body := text; status := status |}.

(** The property [name] of a value; [None] is [undefined].  The properties of
    a [JObject] are its own properties, each name once. *)
Definition get_property (v : JSValue) (name : jsstring) : option JSValue :=
  match v with
  | JObject props => snd <$> find (fun p => bool_decide (fst p = name)) props
  | _ => None
  end.

(** [const { id, key: keyHex } = v]: destructuring [null] throws. *)
Definition destructure_id_key (v : JSValue)
    : result (option JSValue * option JSValue) :=
  match v with
  | JNull => Throw TypeError
  | _ => Ok (get_property v (js "id"), get_property v (js "key"))
  end.

(** [new Uint8Array(keyHex.match(/.{1,2}/g)!.map(...))]: only a string has a
    [match] method. *)
Definition keyHex_bytes (keyHex : option JSValue) : result (list byte) :=
  match keyHex with
  | Some (JString s) => hexToBytes s
  | _ => Throw TypeError
  end.

Section API.
Variable P : Platform.

(** [app.post('/api/share')] from the text of the request on.  The result
    is the response, or the exception that leaves the handler, and the
    database afterwards. *)
Definition share (env : Bindings) (w : Draws) (text : jsstring)
    : result Response * D1Database :=
  match text with
  | [] => (Ok (c_text (js "Error: Text required") 400), DB env)
  | _ =>
    if Z.of_nat (length text) >? 1024 * 1024
    then (Ok (c_text (js "Error: Text too large (>1MB)") 400), DB env)
    else
      (* 1. Generate ID and Data Key *)
      let id := randomUUID (uuid_source w) in
      let dataKey := getRandomValues 32 (dataKey_source w) in
      (* 2. Encrypt Content with Data Key *)
      match encryptData P text dataKey (content_iv_source w) with
      | Throw e => (Throw e, DB env)
      | Ok encryptedContent =>
        (* 3. Store in DB *)
        match D1_run_insert (DB env) id encryptedContent (Date_now w) (D1_fault w) with
        | Throw _ => (Ok (c_text (js "Error: Database error") 500), DB env)
        | Ok db' =>
          (* 4. Encrypt ID+Key with Master Secret *)
          let payload :=
            JSON_stringify P (JObject [(js "id", JString id);
                                       (js "key", JString (buf2hex dataKey))]) in
          let masterKey := getMasterKey P (SECRET_KEY env) in
          match encryptData P payload masterKey (token_iv_source w) with
          | Throw e => (Throw e, db')
          | Ok token => (Ok (c_text token 200), db')
          end
        end
      end
  end.

(** The whole handler: [const text = await c.req.text()] first. *)
Definition post_api_share (env : Bindings) (w : Draws) (request_body : list byte)
    : result Response * D1Database :=
  share env w (Request_text request_body).

(** The [try] block of [app.get('/api/retrieve')], for a token that is not
    empty. *)
Definition retrieve_try (env : Bindings) (token : jsstring) : result Response :=
  (* 1. Decrypt Token -> ID + Data Key *)
  let masterKey := getMasterKey P (SECRET_KEY env) in
  match decryptData P token masterKey with
  | Throw _ => Ok (c_text (js "Error: Invalid token") 400)
  | Ok payloadStr =>
    parsed <- match JSON_parse P payloadStr with
              | Some v => Ok v
              | None => Throw SyntaxError
              end ;;
    id_key <- destructure_id_key parsed ;;
    (* 2. Fetch Encrypted Content *)
    result <- D1_first P (DB env) (fst id_key) ;;
    match result with
    | None => Ok (c_text (js "Error: Not found") 404)
    | Some row =>
      (* 3. Decrypt Content *)
      keyBytes <- keyHex_bytes (snd id_key) ;;
      content <- decryptData P (content row) keyBytes ;;
      Ok (c_text content 200)
    end
  end.

(** [app.get('/api/retrieve')]; [token] is [c.req.query('token')], [None]
    when the parameter is missing. *)
Definition retrieve (env : Bindings) (token : option jsstring) : Response :=
  match token with
  | None => c_text (js "Error: Token required") 400
  | Some [] => c_text (js "Error: Token required") 400
  | Some token =>
    try_catch (retrieve_try env token)
      (fun _ => c_text (js "Error: Decryption failed or system error") 500)
  end.
End API.

(** The states of the database that the Worker reaches from the empty table:
    only [/api/share] writes. *)
Inductive reachable (P : Platform) (secret : jsstring) : D1Database -> Prop :=
| reachable_empty : reachable P secret empty_database
| reachable_share (db : D1Database) (w : Draws) (text : jsstring) :
    reachable P secret db ->
    reachable P secret (snd (share P {| DB := db; SECRET_KEY := secret |} w text)).

(** ** Contracts of the platform

    What the theorems below assume of the primitives the runtime provides. *)

(** The envelope [{ id, key }] that a token seals. *)
Definition envelope (id key : jsstring) : JSValue :=
  JObject [(js "id", JString id); (js "key", JString key)].

(** Printable ASCII other than the quote and the backslash: the characters
    that JSON writes as they are. *)
Definition is_plain (c : Z) : bool :=
  (32 <=? c) && (c <? 127) && negb (c =? 34) && negb (c =? 92).

Definition is_ascii (c : Z) : bool := (0 <=? c) && (c <? 128).

(** Decryption inverts encryption under the same key and IV. *)
Definition AEAD_correct (P : Platform) : Prop :=
  forall key iv plaintext,
    importKey key = Ok key ->
    AES_GCM_decrypt P key iv (AES_GCM_encrypt P key iv plaintext) = Some plaintext.

(** Data shorter than the 16-byte tag is rejected. *)
Definition AEAD_rejects_short (P : Platform) : Prop :=
  forall key iv data,
    (length data < 16)%nat -> AES_GCM_decrypt P key iv data = None.

(** The digest has 256 bits. *)
Definition digest_256 (P : Platform) : Prop :=
  forall data, length (SHA_256 P data) = 32%nat.

(** An envelope of plain strings is written in ASCII and parses back. *)
Definition JSON_envelope (P : Platform) : Prop :=
  forall id key,
    forallb is_plain id = true -> forallb is_plain key = true ->
    forallb is_ascii (JSON_stringify P (envelope id key)) = true /\
    JSON_parse P (JSON_stringify P (envelope id key)) = Some (envelope id key).

(** [s.isWellFormed()]: no surrogate outside a pair. *)
Fixpoint isWellFormed (s : jsstring) : bool :=
  match s with
  | [] => true
  | c :: rest =>
    if is_high_surrogate c then
      match rest with
      | [] => false
      | d :: rest' => is_low_surrogate d && isWellFormed rest'
      end
    else negb (is_low_surrogate c) && isWellFormed rest
  end.

(** A text as [c.req.text()] can return it: code units, well formed. *)
Definition is_text (s : jsstring) : Prop :=
  Forall is_code_unit s /\ isWellFormed s = true.

(** ** Tampering with stored text *)

(** [flip_bit i j s]: the string [s] with bit [j] of its code unit at index
    [i] inverted. *)
Definition flip_bit (i : nat) (j : Z) (s : jsstring) : jsstring :=
  match s !! i with
  | Some c => <[i := Z.lxor c (Z.shiftl 1 j)]> s
  | None => s
  end.

(** Two byte sequences of the same length that differ at exactly one index. *)
Inductive differ_in_one_byte : list byte -> list byte -> Prop :=
| differ_here (b b' : byte) (l : list byte) :
    b <> b' -> differ_in_one_byte (b :: l) (b' :: l)
| differ_later (b : byte) (l l' : list byte) :
    differ_in_one_byte l l' -> differ_in_one_byte (b :: l) (b :: l').

(** Integrity at the grain the tamper property needs: a blob that differs in
    one byte from a sealed one (IV followed by ciphertext and tag) does not
    open. *)
Definition AEAD_detects_byte_change (P : Platform) : Prop :=
  forall key iv plaintext blob,
    importKey key = Ok key ->
    length iv = 12%nat ->
    differ_in_one_byte (iv ++ AES_GCM_encrypt P key iv plaintext) blob ->
    AES_GCM_decrypt P key (take 12 blob) (drop 12 blob) = None.

(** ** A reference platform

    A small instance of [Platform] on which the contracts below hold: a
    checksum in place of the AES-GCM tag, padding in place of the hash, and a
    serializer for objects with two string properties.  It makes no claim of
    secrecy; it shows that the contracts can be met and lets the handlers be
    run. *)

Definition sum_bytes (l : list byte) : Z :=
  fold_right (fun b acc => Z_of_byte b + acc) 0 l.

Definition ref_encrypt (key iv plaintext : list byte) : list byte :=
  plaintext ++ byte_of_Z (- sum_bytes (key ++ iv ++ plaintext)) :: repeat x00 15.

Definition ref_decrypt (key iv data : list byte) : option (list byte) :=
  if (length data <? 16)%nat then None
  else if sum_bytes (key ++ iv ++ data) mod 256 =? 0
       then Some (take (length data - 16) data)
       else None.

Definition ref_digest (data : list byte) : list byte :=
  take 32 (data ++ repeat x00 32).

Fixpoint ref_quote (s : jsstring) : jsstring :=
  match s with
  | [] => []
  | c :: rest =>
    if (c =? 34) || (c =? 92) then 92 :: c :: ref_quote rest
    else c :: ref_quote rest
  end.

Definition ref_stringify (v : JSValue) : jsstring :=
  match v with
  | JObject [(k1, JString a); (k2, JString b)] =>
    [123; 34] ++ ref_quote k1 ++ [34; 58; 34] ++ ref_quote a ++
    [34; 44; 34] ++ ref_quote k2 ++ [34; 58; 34] ++ ref_quote b ++ [34; 125]
  | _ => js "null"
  end.

(** Reads a quoted string up to its closing quote: the string and what
    follows the quote. *)
Fixpoint ref_unquote (s : jsstring) : option (jsstring * jsstring) :=
  match s with
  | [] => None
  | c :: rest =>
    if c =? 34 then Some ([], rest)
    else if c =? 92 then
      match rest with
      | [] => None
      | d :: rest' =>
        match ref_unquote rest' with
        | Some (x, tail) => Some (d :: x, tail)
        | None => None
        end
      end
    else
      match ref_unquote rest with
      | Some (x, tail) => Some (c :: x, tail)
      | None => None
      end
  end.

Definition expect (prefix s : jsstring) : option jsstring :=
  if bool_decide (take (length prefix) s = prefix)
  then Some (drop (length prefix) s) else None.

Definition ref_parse (s : jsstring) : option JSValue :=
  if bool_decide (s = js "null") then Some JNull
  else
    s1 ← expect [123; 34] s;
    '(k1, s2) ← ref_unquote s1;
    s3 ← expect [58; 34] s2;
    '(a, s4) ← ref_unquote s3;
    s5 ← expect [44; 34] s4;
    '(k2, s6) ← ref_unquote s5;
    s7 ← expect [58; 34] s6;
    '(b, s8) ← ref_unquote s7;
    if bool_decide (s8 = [125])
    then Some (JObject [(k1, JString a); (k2, JString b)]) else None.

Definition reference : Platform :=
  {| AES_GCM_encrypt := ref_encrypt;
     AES_GCM_decrypt := ref_decrypt;
     SHA_256 := ref_digest;
     JSON_stringify := ref_stringify;
     JSON_parse := ref_parse;
     D1_first_other := fun _ _ => Ok None |}.

(** ** Vocabulary of the statements *)

(** The two characters [buf2hex] writes for a byte. *)
Definition hex_pair (b : byte) : jsstring :=
  padStart2 (Number_toString16 (Z_of_byte b)).

(** The bytes that the matches of a string decode to. *)
Definition decode_pairs (s : jsstring) : list byte :=
  map (fun chunk => ToUint8 (parseInt16 chunk)) (regex_pairs s).

Definition is_lower_hex_digit (c : Z) : bool :=
  ((48 <=? c) && (c <=? 57)) || ((97 <=? c) && (c <=? 102)).

Definition is_hex_digit (c : Z) : bool :=
  is_lower_hex_digit c || ((65 <=? c) && (c <=? 70)).

(** A hex string: hex digits, at least one. *)
Definition is_hex_string (s : jsstring) : Prop :=
  s <> [] /\ forallb is_hex_digit s = true.

Definition is_scalar_value (c : Z) : Prop :=
  0 <= c < 0x110000 /\ ~ (0xD800 <= c <= 0xDFFF).

(** The states the decoder is in between two bytes: no sequence open, or an
    open sequence whose code point so far can only end in a scalar value. *)
Definition utf8_pending (st : Utf8Decoder) : Prop :=
  st = utf8_start \/
  (bytes_needed st = 1 /\ bytes_seen st = 0 /\
   lower_boundary st = 0x80 /\ upper_boundary st = 0xBF /\
   2 <= code_point st <= 31) \/
  (bytes_needed st = 2 /\ bytes_seen st = 0 /\
   lower_boundary st = (if code_point st =? 0 then 0xA0 else 0x80) /\
   upper_boundary st = (if code_point st =? 13 then 0x9F else 0xBF) /\
   0 <= code_point st <= 15) \/
  (bytes_needed st = 2 /\ bytes_seen st = 1 /\
   lower_boundary st = 0x80 /\ upper_boundary st = 0xBF /\
   0x20 <= code_point st <= 0x3FF /\ ~ (0x360 <= code_point st <= 0x37F)) \/
  (bytes_needed st = 3 /\ bytes_seen st = 0 /\
   lower_boundary st = (if code_point st =? 0 then 0x90 else 0x80) /\
   upper_boundary st = (if code_point st =? 4 then 0x8F else 0xBF) /\
   0 <= code_point st <= 4) \/
  (bytes_needed st = 3 /\ bytes_seen st = 1 /\
   lower_boundary st = 0x80 /\ upper_boundary st = 0xBF /\
   0x10 <= code_point st <= 0x10F) \/
  (bytes_needed st = 3 /\ bytes_seen st = 2 /\
   lower_boundary st = 0x80 /\ upper_boundary st = 0xBF /\
   0x400 <= code_point st <= 0x43FF).

(** A text that Share accepts: [1 <= length <= 1 MiB]. *)
Definition valid_text (text : jsstring) : Prop :=
  (1 <= length text)%nat /\ Z.of_nat (length text) <= 1024 * 1024.

(** The bytes of a sealed blob: the IV, then ciphertext and tag. *)
Definition sealed_bytes (P : Platform) (plaintext : jsstring) (key : list byte)
    (iv_source : nat -> byte) : list byte :=
  getRandomValues 12 iv_source ++
  AES_GCM_encrypt P key (getRandomValues 12 iv_source) (TextEncoder_encode plaintext).

(** The blob [encryptData] returns when the key imports: those bytes in hex. *)
Definition sealed (P : Platform) (plaintext : jsstring) (key : list byte)
    (iv_source : nat -> byte) : jsstring :=
  buf2hex (sealed_bytes P plaintext key iv_source).

(** The data key, identifier, record, payload and token of a Share call. *)
Definition share_key (w : Draws) : list byte :=
  getRandomValues 32 (dataKey_source w).

Definition share_id (w : Draws) : jsstring := randomUUID (uuid_source w).

Definition share_row (P : Platform) (w : Draws) (text : jsstring) : Row :=
  {| content := sealed P text (share_key w) (content_iv_source w);
     created_at := Date_now w |}.

Definition share_payload (P : Platform) (w : Draws) : jsstring :=
  JSON_stringify P (envelope (share_id w) (buf2hex (share_key w))).

Definition share_token (P : Platform) (secret : jsstring) (w : Draws) : jsstring :=
  sealed P (share_payload P w) (getMasterKey P secret) (token_iv_source w).

(** The database after the insert of a Share call. *)
Definition share_database (P : Platform) (db : D1Database) (w : Draws)
    (text : jsstring) : D1Database :=
  {| shares := <[share_id w := share_row P w text]> (shares db);
     journal := journal db ++
       [INSERT_INTO_shares (share_id w) (content (share_row P w text)) (Date_now w)] |}.

(** The errors of the API, as the responses that report them. *)
Definition InputError_text_required : Response :=
  c_text (js "Error: Text required") 400.
Definition InputError_text_too_large : Response :=
  c_text (js "Error: Text too large (>1MB)") 400.
Definition InputError_token_required : Response :=
  c_text (js "Error: Token required") 400.
Definition InvalidTokenError : Response := c_text (js "Error: Invalid token") 400.
Definition NotFoundError : Response := c_text (js "Error: Not found") 404.
Definition StorageError : Response := c_text (js "Error: Database error") 500.
Definition DecryptionError : Response :=
  c_text (js "Error: Decryption failed or system error") 500.

(** The database with bit [j] of character [i] of the content stored under
    [id] inverted. *)
Definition tamper (db : D1Database) (id : jsstring) (i : nat) (j : Z) : D1Database :=
  {| shares := alter (fun row => {| content := flip_bit i j (content row);
                                    created_at := created_at row |}) id (shares db);
     journal := journal db |}.

(** The database with the content stored under [id] replaced. *)
Definition replace_content (db : D1Database) (id content' : jsstring) : D1Database :=
  {| shares := alter (fun row => {| content := content';
                                    created_at := created_at row |}) id (shares db);
     journal := journal db |}.

(** ** Sample inputs *)

Definition sample_env : Bindings :=
  {| DB := empty_database; SECRET_KEY := js "correct horse battery staple" |}.

Definition sample_draws : Draws :=
  {| uuid_source := fun n => byte_of_Z (17 * Z.of_nat n + 3);
     dataKey_source := fun n => byte_of_Z (7 * Z.of_nat n + 1);
     content_iv_source := fun n => byte_of_Z (Z.of_nat n);
     token_iv_source := fun n => byte_of_Z (255 - Z.of_nat n);
     Date_now := 1700000000000;
     D1_fault := false |}.

(** A second request: other draws from the random source, a later clock. *)
Definition sample_draws' : Draws :=
  {| uuid_source := fun n => byte_of_Z (29 * Z.of_nat n + 5);
     dataKey_source := fun n => byte_of_Z (11 * Z.of_nat n + 2);
     content_iv_source := fun n => byte_of_Z (3 * Z.of_nat n);
     token_iv_source := fun n => byte_of_Z (200 - Z.of_nat n);
     Date_now := 1700000000500;
     D1_fault := false |}.

(** The first request again, with a database that rejects the insert. *)
Definition sample_draws_fault : Draws :=
  {| uuid_source := uuid_source sample_draws;
     dataKey_source := dataKey_source sample_draws;
     content_iv_source := content_iv_source sample_draws;
     token_iv_source := token_iv_source sample_draws;
     Date_now := Date_now sample_draws;
     D1_fault := true |}.

Definition hello_world : jsstring := js "hello world".

(** The sealed bytes of the sample call with the lowest bit of the first
    byte inverted. *)
Definition sample_blob_changed : list byte :=
  alter (fun b => byte_of_Z (Z.lxor (Z_of_byte b) 1)) 0%nat
    (sealed_bytes reference hello_world (share_key sample_draws)
       (content_iv_source sample_draws)).

(** A token sealed under the master key whose payload is not JSON. *)
Definition sample_token_not_JSON : jsstring :=
  sealed reference (js "not json")
    (getMasterKey reference (SECRET_KEY sample_env)) (token_iv_source sample_draws).

(** Decides the comparisons of the goal that [lia] can decide. *)
Ltac eval_tests :=
  repeat match goal with
  | |- context [?a <=? ?b] =>
    first [ rewrite (proj2 (Z.leb_le a b)) by lia
          | rewrite (proj2 (Z.leb_gt a b)) by lia ]
  | |- context [?a <? ?b] =>
    first [ rewrite (proj2 (Z.ltb_lt a b)) by lia
          | rewrite (proj2 (Z.ltb_ge a b)) by lia ]
  | |- context [?a =? ?b] =>
    first [ rewrite (proj2 (Z.eqb_eq a b)) by lia
          | rewrite (proj2 (Z.eqb_neq a b)) by lia ]
  end; cbn [andb orb negb].

(** ** Vocabulary of the further properties *)

(** [c.toUpperCase()] on an ASCII character: two strings with the same image
    differ in the case of their letters only. *)
Definition ascii_upper (c : Z) : Z :=
  if (97 <=? c) && (c <=? 122) then c - 32 else c.

(** The number of UTF-16 code units that code points are written in. *)
Definition code_units (cps : list Z) : Z :=
  Z.of_nat (length (concat (map utf16_encode_code_point cps))).

(** A token sealed under the master key whose envelope names the record of
    the sample call and has an empty key. *)
Definition sample_token_empty_key : jsstring :=
  sealed reference (JSON_stringify reference (envelope (share_id sample_draws) []))
    (getMasterKey reference (SECRET_KEY sample_env)) (token_iv_source sample_draws).

(** Splits a hypothesis [In c [v1; ...; vn]] into its cases. *)
Ltac each_case H :=
  cbn [In] in H; repeat (destruct H as [<-|H]; [|]); try contradiction.

(** * Proofs *)

(** ** Bytes *)

Lemma Z_of_byte_range (b : byte) : 0 <= Z_of_byte b < 256.
Proof.
  unfold Z_of_byte. pose proof (Byte.to_N_bounded b). lia.
Qed.

Lemma byte_of_Z_of_byte (b : byte) : byte_of_Z (Z_of_byte b) = b.
Proof.
  unfold byte_of_Z. pose proof (Z_of_byte_range b) as Hr.
  rewrite Z.mod_small by exact Hr.
  unfold Z_of_byte. rewrite N2Z.id, Byte.of_to_N. reflexivity.
Qed.

Lemma Z_of_byte_of_Z (z : Z) : Z_of_byte (byte_of_Z z) = z mod 256.
Proof.
  unfold byte_of_Z, Z_of_byte.
  pose proof (Z.mod_pos_bound z 256 ltac:(lia)) as Hm.
  destruct (Byte.of_N (Z.to_N (z mod 256))) as [b|] eqn:E.
  - apply Byte.to_of_N in E. rewrite E. lia.
  - apply Byte.of_N_None_iff in E. lia.
Qed.

Lemma Z_of_byte_inj (a b : byte) : Z_of_byte a = Z_of_byte b -> a = b.
Proof.
  intros H. rewrite <- (byte_of_Z_of_byte a), <- (byte_of_Z_of_byte b), H.
  reflexivity.
Qed.

Lemma length_getRandomValues (n : nat) (source : nat -> byte) :
  length (getRandomValues n source) = n.
Proof. unfold getRandomValues. rewrite length_map, length_seq. reflexivity. Qed.

(** ** The hex codec *)

Lemma hex_pair_shape (b : byte) :
  exists h l, hex_pair b = [h; l] /\
    is_line_terminator h = false /\ is_line_terminator l = false /\
    is_plain h = true /\ is_plain l = true.
Proof.
  destruct b; do 2 eexists; (split; [reflexivity | repeat split]).
Qed.

Lemma hex_pair_parse (b : byte) : ToUint8 (parseInt16 (hex_pair b)) = b.
Proof. destruct b; reflexivity. Qed.

Lemma buf2hex_cons (b : byte) (bs : list byte) :
  buf2hex (b :: bs) = hex_pair b ++ buf2hex bs.
Proof. reflexivity. Qed.

Lemma buf2hex_app (xs ys : list byte) :
  buf2hex (xs ++ ys) = buf2hex xs ++ buf2hex ys.
Proof.
  unfold buf2hex. rewrite map_app, concat_app. reflexivity.
Qed.

Lemma length_buf2hex (bs : list byte) :
  length (buf2hex bs) = (2 * length bs)%nat.
Proof.
  induction bs as [|b bs IH]; [reflexivity|].
  rewrite buf2hex_cons. destruct (hex_pair_shape b) as (h & l & -> & _).
  simpl. rewrite IH. lia.
Qed.

Lemma buf2hex_plain (bs : list byte) : forallb is_plain (buf2hex bs) = true.
Proof.
  induction bs as [|b bs IH]; [reflexivity|].
  rewrite buf2hex_cons.
  destruct (hex_pair_shape b) as (h & l & -> & _ & _ & Hh & Hl).
  simpl. rewrite Hh, Hl, IH. reflexivity.
Qed.

Lemma hexToBytes_decode_pairs (s : jsstring) :
  decode_pairs s <> [] -> hexToBytes s = Ok (decode_pairs s).
Proof.
  unfold hexToBytes, String_match_pairs, decode_pairs.
  destruct (regex_pairs s); [intros H; exfalso; apply H; reflexivity|].
  reflexivity.
Qed.

Lemma decode_pairs_hex_pair (b : byte) (rest : jsstring) :
  decode_pairs (hex_pair b ++ rest) = b :: decode_pairs rest.
Proof.
  pose proof (hex_pair_parse b) as Hp.
  destruct (hex_pair_shape b) as (h & l & E & Hh & Hl & _).
  rewrite E in *. unfold decode_pairs. simpl.
  rewrite Hh, Hl. simpl. rewrite Hp. reflexivity.
Qed.

Lemma decode_pairs_buf2hex (bs : list byte) : decode_pairs (buf2hex bs) = bs.
Proof.
  induction bs as [|b bs IH]; [reflexivity|].
  rewrite buf2hex_cons, decode_pairs_hex_pair, IH. reflexivity.
Qed.

(** Decoding inverts [buf2hex] on every buffer that is not empty; the empty
    string has no match and [.map] throws. *)
Lemma hexToBytes_buf2hex (bs : list byte) :
  bs <> [] -> hexToBytes (buf2hex bs) = Ok bs.
Proof.
  intros H. rewrite hexToBytes_decode_pairs; rewrite decode_pairs_buf2hex; auto.
Qed.


(** ** Bit operations as arithmetic *)

Lemma land_low_bits (x n : Z) : 0 <= n -> Z.land x (2 ^ n - 1) = x mod 2 ^ n.
Proof.
  intros Hn. rewrite <- Z.land_ones by exact Hn.
  rewrite Z.ones_equiv, Z.sub_1_r. reflexivity.
Qed.

Lemma lor_high_low (a y n : Z) :
  0 <= n -> 0 <= y < 2 ^ n -> Z.lor (a * 2 ^ n) y = a * 2 ^ n + y.
Proof.
  intros Hn Hy. symmetry. apply Z.add_nocarry_lor.
  apply Z.bits_inj'. intros i Hi.
  rewrite Z.land_spec, Z.bits_0.
  destruct (Z.lt_ge_cases i n) as [Hlt|Hge].
  - rewrite Z.mul_pow2_bits_low by lia. reflexivity.
  - rewrite <- (Z.mod_small y (2 ^ n)) by lia.
    rewrite Z.mod_pow2_bits_high by lia. apply andb_false_r.
Qed.

Lemma land_63 (x : Z) : Z.land x 0x3F = x mod 64.
Proof. exact (land_low_bits x 6 ltac:(lia)). Qed.

Lemma land_31 (x : Z) : Z.land x 0x1F = x mod 32.
Proof. exact (land_low_bits x 5 ltac:(lia)). Qed.

Lemma land_15 (x : Z) : Z.land x 0xF = x mod 16.
Proof. exact (land_low_bits x 4 ltac:(lia)). Qed.

Lemma land_7 (x : Z) : Z.land x 0x7 = x mod 8.
Proof. exact (land_low_bits x 3 ltac:(lia)). Qed.

Lemma land_1023 (x : Z) : Z.land x 0x3FF = x mod 1024.
Proof. exact (land_low_bits x 10 ltac:(lia)). Qed.

Lemma lor_128 (y : Z) : 0 <= y < 64 -> Z.lor 0x80 y = 128 + y.
Proof. intros H. exact (lor_high_low 1 y 7 ltac:(lia) ltac:(lia)). Qed.

Lemma lor_shiftl_6 (a y : Z) : 0 <= y < 64 -> Z.lor (Z.shiftl a 6) y = a * 64 + y.
Proof.
  intros H. rewrite Z.shiftl_mul_pow2 by lia.
  exact (lor_high_low a y 6 ltac:(lia) H).
Qed.

Lemma shiftr_div (x n : Z) : 0 <= n -> Z.shiftr x n = x / 2 ^ n.
Proof. apply Z.shiftr_div_pow2. Qed.

(** ** UTF-8 *)

Lemma utf8_lead_1 (a : Z) : 0 <= a <= 0x7F -> utf8_lead a = (Some a, utf8_start).
Proof. intros H. unfold utf8_lead. eval_tests. reflexivity. Qed.

Lemma utf8_lead_2 (a : Z) :
  0xC2 <= a <= 0xDF ->
  utf8_lead a =
  (None, {| code_point := a - 0xC0; bytes_seen := 0; bytes_needed := 1;
            lower_boundary := 0x80; upper_boundary := 0xBF |}).
Proof.
  intros H. unfold utf8_lead. eval_tests. rewrite land_31.
  do 2 f_equal. Z.div_mod_to_equations. lia.
Qed.

Lemma utf8_lead_3 (a : Z) :
  0xE0 <= a <= 0xEF ->
  utf8_lead a =
  (None, {| code_point := a - 0xE0; bytes_seen := 0; bytes_needed := 2;
            lower_boundary := if a =? 0xE0 then 0xA0 else 0x80;
            upper_boundary := if a =? 0xED then 0x9F else 0xBF |}).
Proof.
  intros H. unfold utf8_lead.
  rewrite (proj2 (Z.leb_gt a 0x7F)) by lia.
  rewrite (proj2 (Z.leb_gt a 0xDF)) by lia. rewrite andb_false_r.
  rewrite (proj2 (Z.leb_le 0xE0 a)), (proj2 (Z.leb_le a 0xEF)) by lia.
  cbn [andb]. rewrite land_15.
  do 2 f_equal. f_equal. Z.div_mod_to_equations. lia.
Qed.

Lemma utf8_lead_4 (a : Z) :
  0xF0 <= a <= 0xF4 ->
  utf8_lead a =
  (None, {| code_point := a - 0xF0; bytes_seen := 0; bytes_needed := 3;
            lower_boundary := if a =? 0xF0 then 0x90 else 0x80;
            upper_boundary := if a =? 0xF4 then 0x8F else 0xBF |}).
Proof.
  intros H. unfold utf8_lead.
  rewrite (proj2 (Z.leb_gt a 0x7F)) by lia.
  rewrite (proj2 (Z.leb_gt a 0xDF)) by lia. rewrite andb_false_r.
  rewrite (proj2 (Z.leb_gt a 0xEF)) by lia. rewrite andb_false_r.
  rewrite (proj2 (Z.leb_le 0xF0 a)), (proj2 (Z.leb_le a 0xF4)) by lia.
  cbn [andb]. rewrite land_7.
  do 2 f_equal. f_equal. Z.div_mod_to_equations. lia.
Qed.

Lemma utf8_decode_lead (b : Z) (rest : list Z) :
  utf8_decode utf8_start (b :: rest) =
  emit (fst (utf8_lead b)) (utf8_decode (snd (utf8_lead b)) rest).
Proof. reflexivity. Qed.

(** A continuation byte inside its boundaries. *)
Lemma utf8_decode_continue (st : Utf8Decoder) (b : Z) (rest : list Z) :
  bytes_needed st <> 0 ->
  lower_boundary st <= b <= upper_boundary st ->
  0x80 <= b <= 0xBF ->
  utf8_decode st (b :: rest) =
  if bytes_seen st + 1 =? bytes_needed st
  then (code_point st * 64 + (b - 0x80)) :: utf8_decode utf8_start rest
  else utf8_decode {| code_point := code_point st * 64 + (b - 0x80);
                      bytes_seen := bytes_seen st + 1;
                      bytes_needed := bytes_needed st;
                      lower_boundary := 0x80; upper_boundary := 0xBF |} rest.
Proof.
  intros Hn Hb Hc. cbn [utf8_decode].
  rewrite (proj2 (Z.eqb_neq _ _) Hn).
  rewrite (proj2 (Z.leb_le _ _) (proj1 Hb)), (proj2 (Z.leb_le _ _) (proj2 Hb)).
  cbn [andb]. rewrite land_63, lor_shiftl_6 by (apply Z.mod_pos_bound; lia).
  replace (b mod 64) with (b - 0x80) by (Z.div_mod_to_equations; lia).
  reflexivity.
Qed.

Lemma utf8_decode_1 (a : Z) (rest : list Z) :
  0 <= a <= 0x7F ->
  utf8_decode utf8_start (a :: rest) = a :: utf8_decode utf8_start rest.
Proof. intros Ha. rewrite utf8_decode_lead, utf8_lead_1 by exact Ha. reflexivity. Qed.

Lemma utf8_decode_2 (a b : Z) (rest : list Z) :
  0xC2 <= a <= 0xDF -> 0x80 <= b <= 0xBF ->
  utf8_decode utf8_start (a :: b :: rest) =
  ((a - 0xC0) * 64 + (b - 0x80)) :: utf8_decode utf8_start rest.
Proof.
  intros Ha Hb. rewrite utf8_decode_lead, utf8_lead_2 by exact Ha.
  cbn [fst snd emit]. rewrite utf8_decode_continue; cbn; try lia. reflexivity.
Qed.

Lemma utf8_decode_3 (a b c : Z) (rest : list Z) :
  0xE0 <= a <= 0xEF ->
  (if a =? 0xE0 then 0xA0 else 0x80) <= b <= (if a =? 0xED then 0x9F else 0xBF) ->
  0x80 <= c <= 0xBF ->
  utf8_decode utf8_start (a :: b :: c :: rest) =
  ((a - 0xE0) * 4096 + (b - 0x80) * 64 + (c - 0x80)) :: utf8_decode utf8_start rest.
Proof.
  intros Ha Hb Hc. rewrite utf8_decode_lead, utf8_lead_3 by exact Ha.
  cbn [fst snd emit].
  assert (0x80 <= b <= 0xBF)
    by (destruct (a =? 0xE0), (a =? 0xED); lia).
  rewrite utf8_decode_continue by (cbn; first [exact Hb | lia]).
  cbn [bytes_seen bytes_needed code_point]. simpl (0 + 1 =? 2). cbv iota.
  rewrite utf8_decode_continue by (cbn; lia).
  cbn [bytes_seen bytes_needed code_point]. simpl (0 + 1 + 1 =? 2). cbv iota.
  f_equal. lia.
Qed.

Lemma utf8_decode_4 (a b c d : Z) (rest : list Z) :
  0xF0 <= a <= 0xF4 ->
  (if a =? 0xF0 then 0x90 else 0x80) <= b <= (if a =? 0xF4 then 0x8F else 0xBF) ->
  0x80 <= c <= 0xBF -> 0x80 <= d <= 0xBF ->
  utf8_decode utf8_start (a :: b :: c :: d :: rest) =
  ((a - 0xF0) * 262144 + (b - 0x80) * 4096 + (c - 0x80) * 64 + (d - 0x80))
    :: utf8_decode utf8_start rest.
Proof.
  intros Ha Hb Hc Hd. rewrite utf8_decode_lead, utf8_lead_4 by exact Ha.
  cbn [fst snd emit].
  assert (0x80 <= b <= 0xBF)
    by (destruct (a =? 0xF0), (a =? 0xF4); lia).
  rewrite utf8_decode_continue by (cbn; first [exact Hb | lia]).
  cbn [bytes_seen bytes_needed code_point]. simpl (0 + 1 =? 3). cbv iota.
  rewrite utf8_decode_continue by (cbn; lia).
  cbn [bytes_seen bytes_needed code_point]. simpl (0 + 1 + 1 =? 3). cbv iota.
  rewrite utf8_decode_continue by (cbn; lia).
  cbn [bytes_seen bytes_needed code_point]. simpl (0 + 1 + 1 + 1 =? 3). cbv iota.
  f_equal. lia.
Qed.

(** The bytes of the encoder, in arithmetic. *)
Lemma utf8_encode_code_point_arith (c : Z) :
  utf8_encode_code_point c =
  if c <=? 0x7F then [c]
  else if c <=? 0x7FF then [c / 64 + 0xC0; 128 + c mod 64]
  else if c <=? 0xFFFF then
    [c / 4096 + 0xE0; 128 + (c / 64) mod 64; 128 + c mod 64]
  else [c / 262144 + 0xF0; 128 + (c / 4096) mod 64;
        128 + (c / 64) mod 64; 128 + c mod 64].
Proof.
  unfold utf8_encode_code_point.
  rewrite !land_63, !lor_128 by (apply Z.mod_pos_bound; lia).
  rewrite (shiftr_div c 6), (shiftr_div c 12), (shiftr_div c 18) by lia.
  reflexivity.
Qed.

Lemma utf8_encode_code_point_bytes (c : Z) :
  is_scalar_value c -> Forall (fun x => 0 <= x < 256) (utf8_encode_code_point c).
Proof.
  intros [Hr Hs]. rewrite utf8_encode_code_point_arith.
  destruct (Z.leb_spec c 0x7F); [|destruct (Z.leb_spec c 0x7FF);
    [|destruct (Z.leb_spec c 0xFFFF)]];
  repeat constructor; Z.div_mod_to_equations; lia.
Qed.

(** Decoding the bytes of one scalar value gives it back. *)
Lemma utf8_decode_encode_code_point (c : Z) (rest : list Z) :
  is_scalar_value c ->
  utf8_decode utf8_start (utf8_encode_code_point c ++ rest) =
  c :: utf8_decode utf8_start rest.
Proof.
  intros [Hr Hs]. rewrite utf8_encode_code_point_arith.
  destruct (Z.leb_spec c 0x7F); [|destruct (Z.leb_spec c 0x7FF);
    [|destruct (Z.leb_spec c 0xFFFF)]]; cbn [app].
  - apply utf8_decode_1. lia.
  - rewrite utf8_decode_2 by (Z.div_mod_to_equations; lia).
    f_equal. Z.div_mod_to_equations. lia.
  - rewrite utf8_decode_3.
    + f_equal. Z.div_mod_to_equations. lia.
    + Z.div_mod_to_equations. lia.
    + destruct (Z.eqb_spec (c / 4096 + 0xE0) 0xE0), (Z.eqb_spec (c / 4096 + 0xE0) 0xED);
        Z.div_mod_to_equations; lia.
    + Z.div_mod_to_equations. lia.
  - rewrite utf8_decode_4.
    + f_equal. Z.div_mod_to_equations. lia.
    + Z.div_mod_to_equations. lia.
    + destruct (Z.eqb_spec (c / 262144 + 0xF0) 0xF0), (Z.eqb_spec (c / 262144 + 0xF0) 0xF4);
        Z.div_mod_to_equations; lia.
    + Z.div_mod_to_equations. lia.
    + Z.div_mod_to_equations. lia.
Qed.

Lemma utf8_decode_encode (cps : list Z) :
  Forall is_scalar_value cps ->
  utf8_decode utf8_start (concat (map utf8_encode_code_point cps)) = cps.
Proof.
  induction 1 as [|c cps Hc _ IH]; [reflexivity|].
  cbn [map concat]. rewrite utf8_decode_encode_code_point by exact Hc.
  rewrite IH. reflexivity.
Qed.

Lemma map_Z_of_byte_of_Z (l : list Z) :
  Forall (fun x => 0 <= x < 256) l -> map Z_of_byte (map byte_of_Z l) = l.
Proof.
  induction 1 as [|x l Hx _ IH]; [reflexivity|].
  cbn [map]. rewrite Z_of_byte_of_Z, Z.mod_small, IH by exact Hx. reflexivity.
Qed.

Lemma utf8_encode_bytes (cps : list Z) :
  Forall is_scalar_value cps ->
  Forall (fun x => 0 <= x < 256) (concat (map utf8_encode_code_point cps)).
Proof.
  induction 1 as [|c cps Hc _ IH]; [constructor|].
  cbn [map concat]. apply Forall_app. split; [|exact IH].
  apply utf8_encode_code_point_bytes, Hc.
Qed.

(** Induction on a string two code units at a time, as [scalar_values] and
    [isWellFormed] recurse. *)
Lemma jsstring_pair_ind (Q : jsstring -> Prop) :
  Q [] -> (forall c, Q [c]) ->
  (forall c d rest, Q rest -> Q (d :: rest) -> Q (c :: d :: rest)) ->
  forall s, Q s.
Proof.
  intros H0 H1 H2 s.
  assert (Q s /\ forall c, Q (c :: s)) as [H _]; [|exact H].
  induction s as [|d rest [IHa IHb]]; split; auto.
Qed.

Lemma surrogate_pair_scalar (c d : Z) :
  is_high_surrogate c = true -> is_low_surrogate d = true ->
  0x10000 <= 0x10000 + Z.shiftl (c - 0xD800) 10 + (d - 0xDC00) < 0x110000.
Proof.
  unfold is_high_surrogate, is_low_surrogate. intros Hc Hd.
  rewrite Z.shiftl_mul_pow2 by lia. lia.
Qed.

Lemma scalar_values_scalar (s : jsstring) :
  Forall is_code_unit s -> Forall is_scalar_value (scalar_values s).
Proof.
  assert (Hrep : is_scalar_value 0xFFFD) by (unfold is_scalar_value; lia).
  assert (Hone : forall c, is_code_unit c -> is_high_surrogate c = false ->
                           is_low_surrogate c = false -> is_scalar_value c).
  { unfold is_code_unit, is_high_surrogate, is_low_surrogate, is_scalar_value.
    intros c Hc Hh Hl. lia. }
  induction s as [| c | c d rest IH1 IH2] using jsstring_pair_ind; intros Hs.
  - constructor.
  - cbn [scalar_values]. inversion_clear Hs as [|? ? Hc _].
    destruct (is_high_surrogate c) eqn:Eh; [constructor; [exact Hrep | constructor]|].
    destruct (is_low_surrogate c) eqn:El; (constructor; [auto | constructor]).
  - inversion Hs as [|? ? Hc Hrest]; subst.
    change (scalar_values (c :: d :: rest)) with
      (if is_high_surrogate c then
         if is_low_surrogate d
         then (0x10000 + Z.shiftl (c - 0xD800) 10 + (d - 0xDC00)) :: scalar_values rest
         else 0xFFFD :: scalar_values (d :: rest)
       else if is_low_surrogate c then 0xFFFD :: scalar_values (d :: rest)
       else c :: scalar_values (d :: rest)).
    destruct (is_high_surrogate c) eqn:Eh.
    + destruct (is_low_surrogate d) eqn:El.
      * constructor.
        -- pose proof (surrogate_pair_scalar c d Eh El). unfold is_scalar_value. lia.
        -- apply IH1. inversion Hrest; assumption.
      * constructor; auto.
    + destruct (is_low_surrogate c) eqn:El; constructor; auto.
Qed.

(** What decoding the encoding of a string gives: its scalar values, without
    a leading byte order mark, as UTF-16. *)
Lemma TextDecoder_TextEncoder (s : jsstring) :
  Forall is_code_unit s ->
  TextDecoder_decode (TextEncoder_encode s) =
  concat (map utf16_encode_code_point (strip_BOM (scalar_values s))).
Proof.
  intros Hs. unfold TextDecoder_decode, TextEncoder_encode.
  pose proof (scalar_values_scalar s Hs) as Hsv.
  rewrite map_Z_of_byte_of_Z by (apply utf8_encode_bytes, Hsv).
  rewrite utf8_decode_encode by exact Hsv. reflexivity.
Qed.

Lemma utf16_surrogate_pair (c d : Z) :
  is_high_surrogate c = true -> is_low_surrogate d = true ->
  utf16_encode_code_point (0x10000 + Z.shiftl (c - 0xD800) 10 + (d - 0xDC00)) = [c; d].
Proof.
  intros Hc Hd. pose proof (surrogate_pair_scalar c d Hc Hd) as Hr.
  unfold utf16_encode_code_point.
  rewrite (proj2 (Z.ltb_ge _ _)) by lia.
  unfold is_high_surrogate, is_low_surrogate in *.
  rewrite land_1023, (shiftr_div _ 10), Z.shiftl_mul_pow2 by lia.
  f_equal; [|f_equal]; Z.div_mod_to_equations; lia.
Qed.

Lemma utf16_code_unit (c : Z) :
  is_code_unit c -> utf16_encode_code_point c = [c].
Proof.
  unfold is_code_unit, utf16_encode_code_point. intros H.
  rewrite (proj2 (Z.ltb_lt _ _)) by lia. reflexivity.
Qed.

(** A well-formed string is the UTF-16 form of its scalar values, and its
    first scalar value is U+FEFF only if its first code unit is. *)
Lemma well_formed_scalar_values (s : jsstring) :
  is_text s ->
  concat (map utf16_encode_code_point (scalar_values s)) = s /\
  (hd 0 s <> 0xFEFF -> strip_BOM (scalar_values s) = scalar_values s).
Proof.
  unfold is_text.
  induction s as [| c | c d rest IH1 IH2] using jsstring_pair_ind; intros [Hs Hw].
  - split; reflexivity.
  - inversion_clear Hs as [|? ? Hc _]. cbn [isWellFormed scalar_values] in *.
    destruct (is_high_surrogate c) eqn:Eh; [discriminate|].
    destruct (is_low_surrogate c) eqn:El; [discriminate|].
    cbn [map concat hd strip_BOM]. rewrite utf16_code_unit by exact Hc.
    split; [reflexivity|]. intros Hne.
    rewrite (proj2 (Z.eqb_neq _ _) Hne). reflexivity.
  - inversion Hs as [|? ? Hc Hrest]; subst.
    change (scalar_values (c :: d :: rest)) with
      (if is_high_surrogate c then
         if is_low_surrogate d
         then (0x10000 + Z.shiftl (c - 0xD800) 10 + (d - 0xDC00)) :: scalar_values rest
         else 0xFFFD :: scalar_values (d :: rest)
       else if is_low_surrogate c then 0xFFFD :: scalar_values (d :: rest)
       else c :: scalar_values (d :: rest)).
    change (isWellFormed (c :: d :: rest)) with
      (if is_high_surrogate c then is_low_surrogate d && isWellFormed rest
       else negb (is_low_surrogate c) && isWellFormed (d :: rest)) in Hw.
    destruct (is_high_surrogate c) eqn:Eh.
    + apply andb_true_iff in Hw as [El Hw]. rewrite El.
      destruct IH1 as [IH _]; [split; [inversion Hrest; assumption | exact Hw]|].
      cbn [map concat strip_BOM hd]. rewrite utf16_surrogate_pair, IH by assumption.
      split; [reflexivity|]. intros _.
      pose proof (surrogate_pair_scalar c d Eh El).
      rewrite (proj2 (Z.eqb_neq _ _)) by lia. reflexivity.
    + apply andb_true_iff in Hw as [El Hw]. apply negb_true_iff in El. rewrite El.
      destruct IH2 as [IH _]; [split; assumption|].
      cbn [map concat strip_BOM hd]. rewrite utf16_code_unit, IH by exact Hc.
      split; [reflexivity|]. intros Hne.
      rewrite (proj2 (Z.eqb_neq _ _) Hne). reflexivity.
Qed.

(** The text codec gives back every well-formed string that does not start
    with U+FEFF. *)
Lemma text_codec_roundtrip (s : jsstring) :
  is_text s -> hd 0 s <> 0xFEFF ->
  TextDecoder_decode (TextEncoder_encode s) = s.
Proof.
  intros Ht Hb. destruct (well_formed_scalar_values s Ht) as [Hu Hs].
  rewrite TextDecoder_TextEncoder by apply Ht.
  rewrite Hs by exact Hb. exact Hu.
Qed.

(** A leading U+FEFF is lost. *)
Lemma text_codec_drops_BOM (s : jsstring) :
  is_text s ->
  TextDecoder_decode (TextEncoder_encode (0xFEFF :: s)) = s.
Proof.
  intros Ht. destruct (well_formed_scalar_values s Ht) as [Hu _].
  rewrite TextDecoder_TextEncoder.
  - destruct s as [|d rest]; [reflexivity|].
    change (scalar_values (0xFEFF :: d :: rest)) with (0xFEFF :: scalar_values (d :: rest)).
    cbn [strip_BOM]. simpl (0xFEFF =? 0xFEFF). cbv iota. exact Hu.
  - constructor; [unfold is_code_unit; lia | apply Ht].
Qed.

Lemma ascii_is_text (s : jsstring) :
  forallb is_ascii s = true -> is_text s /\ hd 0 s <> 0xFEFF.
Proof.
  intros H. rewrite forallb_forall in H.
  assert (Ha : forall c, In c s -> 0 <= c < 128).
  { intros c Hc. specialize (H c Hc). unfold is_ascii in H. lia. }
  clear H. split; [split|].
  - apply List.Forall_forall. intros c Hc. specialize (Ha c Hc).
    unfold is_code_unit. lia.
  - induction s as [| c | c d rest IH1 IH2] using jsstring_pair_ind.
    + reflexivity.
    + pose proof (Ha c (or_introl eq_refl)). cbn [isWellFormed].
      unfold is_high_surrogate, is_low_surrogate. eval_tests. reflexivity.
    + pose proof (Ha c (or_introl eq_refl)).
      change (isWellFormed (c :: d :: rest)) with
        (if is_high_surrogate c then is_low_surrogate d && isWellFormed rest
         else negb (is_low_surrogate c) && isWellFormed (d :: rest)).
      assert (is_high_surrogate c = false) as ->
        by (unfold is_high_surrogate; eval_tests; reflexivity).
      assert (is_low_surrogate c = false) as ->
        by (unfold is_low_surrogate; eval_tests; reflexivity).
      cbn [negb andb]. apply IH2. intros x Hx. apply Ha. right. exact Hx.
  - destruct s as [|c rest]; cbn [hd]; [lia|].
    pose proof (Ha c (or_introl eq_refl)). lia.
Qed.

Lemma text_codec_ascii (s : jsstring) :
  forallb is_ascii s = true -> TextDecoder_decode (TextEncoder_encode s) = s.
Proof.
  intros H. destruct (ascii_is_text s H) as [Ht Hb].
  apply text_codec_roundtrip; assumption.
Qed.

(** ** The helpers *)

Lemma importKey_Ok (k k' : list byte) : importKey k = Ok k' -> k' = k.
Proof.
  unfold importKey. destruct (_ || _); [|discriminate]. congruence.
Qed.

Lemma importKey_32 (k : list byte) : length k = 32%nat -> importKey k = Ok k.
Proof. intros H. unfold importKey. rewrite H. reflexivity. Qed.

Lemma importKey_share_key (w : Draws) : importKey (share_key w) = Ok (share_key w).
Proof. apply importKey_32, length_getRandomValues. Qed.

Lemma share_key_nonempty (w : Draws) : share_key w <> [].
Proof.
  intros H. apply (f_equal length) in H.
  unfold share_key in H. rewrite length_getRandomValues in H. discriminate.
Qed.

Lemma randomUUID_plain (source : nat -> byte) :
  forallb is_plain (randomUUID source) = true.
Proof.
  unfold randomUUID. rewrite !forallb_app, !buf2hex_plain. reflexivity.
Qed.

Section Helper_facts.
Variable P : Platform.

Lemma encryptData_imported (plaintext : jsstring) (key : list byte)
    (iv_source : nat -> byte) :
  importKey key = Ok key ->
  encryptData P plaintext key iv_source = Ok (sealed P plaintext key iv_source).
Proof. intros H. unfold encryptData. rewrite H. reflexivity. Qed.

Lemma sealed_nonempty (plaintext : jsstring) (key : list byte)
    (iv_source : nat -> byte) :
  exists c rest, sealed P plaintext key iv_source = c :: rest.
Proof.
  pose proof (length_buf2hex (sealed_bytes P plaintext key iv_source)) as H.
  fold (sealed P plaintext key iv_source) in H.
  unfold sealed_bytes in H. rewrite length_app, length_getRandomValues in H.
  destruct (sealed P plaintext key iv_source) as [|c rest]; [simpl in H; lia|].
  eauto.
Qed.

(** Opening a hex blob: what [decryptData] does once the blob decodes. *)
Lemma decryptData_blob (blob key : list byte) :
  blob <> [] -> importKey key = Ok key ->
  decryptData P (buf2hex blob) key =
  match AES_GCM_decrypt P key (take 12 blob) (drop 12 blob) with
  | Some decrypted => Ok (TextDecoder_decode decrypted)
  | None => Throw (Error "Decryption failed")
  end.
Proof.
  intros Hb Hk. unfold decryptData.
  rewrite hexToBytes_buf2hex by exact Hb. cbn [bind]. rewrite Hk. reflexivity.
Qed.

(** Opening what was sealed under the same key. *)
Lemma decryptData_sealed (plaintext : jsstring) (key : list byte)
    (iv_source : nat -> byte) :
  AEAD_correct P -> importKey key = Ok key ->
  decryptData P (sealed P plaintext key iv_source) key =
  Ok (TextDecoder_decode (TextEncoder_encode plaintext)).
Proof.
  intros Hc Hk. unfold sealed, sealed_bytes. rewrite decryptData_blob; [| |exact Hk].
  - rewrite take_app_length', drop_app_length'
      by (symmetry; apply length_getRandomValues).
    rewrite Hc by exact Hk. reflexivity.
  - intros H. apply (f_equal length) in H.
    rewrite length_app, length_getRandomValues in H. discriminate.
Qed.
End Helper_facts.

(** ** The handlers *)

Lemma get_property_envelope (id key : jsstring) :
  get_property (envelope id key) (js "id") = Some (JString id) /\
  get_property (envelope id key) (js "key") = Some (JString key).
Proof. split; reflexivity. Qed.

Section Handler_facts.
Variable P : Platform.

(** An accepted text whose insert goes through: the response is the token
    and the database holds the new record. *)
Lemma share_accepted (env : Bindings) (w : Draws) (text : jsstring) :
  digest_256 P -> valid_text text -> D1_fault w = false ->
  share P env w text =
  (Ok (c_text (share_token P (SECRET_KEY env) w) 200),
   share_database P (DB env) w text).
Proof.
  intros Hd [Hlen Hmax] Hf. unfold share.
  destruct text as [|c t] eqn:E; [simpl in Hlen; lia|]. rewrite <- E in *.
  destruct (Z.gtb_spec (Z.of_nat (length text)) (1024 * 1024)); [lia|].
  change (getRandomValues 32 (dataKey_source w)) with (share_key w).
  rewrite encryptData_imported by apply importKey_share_key.
  unfold D1_run_insert. rewrite Hf.
  rewrite encryptData_imported by apply importKey_32, Hd.
  reflexivity.
Qed.

Lemma retrieve_nonempty (env : Bindings) (token : jsstring) :
  token <> [] ->
  retrieve P env (Some token) =
  try_catch (retrieve_try P env token) (fun _ => DecryptionError).
Proof. intros H. destruct token; [contradiction|reflexivity]. Qed.

(** A token that does not open is an invalid token, whatever made
    [decryptData] throw. *)
Lemma retrieve_token_throws (env : Bindings) (token : jsstring) (e : JSError) :
  token <> [] ->
  decryptData P token (getMasterKey P (SECRET_KEY env)) = Throw e ->
  retrieve P env (Some token) = InvalidTokenError.
Proof.
  intros Hn Ht. rewrite retrieve_nonempty by exact Hn.
  unfold retrieve_try. rewrite Ht. reflexivity.
Qed.

Lemma share_payload_sound :
  JSON_envelope P ->
  forall w,
    TextDecoder_decode (TextEncoder_encode (share_payload P w)) = share_payload P w /\
    JSON_parse P (share_payload P w) =
    Some (envelope (share_id w) (buf2hex (share_key w))).
Proof.
  intros Hj w.
  destruct (Hj (share_id w) (buf2hex (share_key w))
               (randomUUID_plain _) (buf2hex_plain _)) as [Ha Hp].
  split; [apply text_codec_ascii, Ha | exact Hp].
Qed.

(** What Retrieve does with a token that Share has issued: it looks the
    identifier up and opens the stored content under the data key. *)
Lemma retrieve_share_token (env : Bindings) (w : Draws) :
  AEAD_correct P -> digest_256 P -> JSON_envelope P ->
  retrieve P env (Some (share_token P (SECRET_KEY env) w)) =
  match shares (DB env) !! share_id w with
  | None => NotFoundError
  | Some row =>
    try_catch (content <- decryptData P (content row) (share_key w) ;;
               Ok (c_text content 200))
              (fun _ => DecryptionError)
  end.
Proof.
  intros Hc Hd Hj.
  destruct (sealed_nonempty P (share_payload P w) (getMasterKey P (SECRET_KEY env))
              (token_iv_source w)) as (c & rest & E).
  assert (Hne : share_token P (SECRET_KEY env) w <> [])
    by (unfold share_token; rewrite E; discriminate).
  rewrite retrieve_nonempty by exact Hne.
  unfold retrieve_try, share_token.
  rewrite decryptData_sealed by (first [exact Hc | apply importKey_32, Hd]).
  destruct (share_payload_sound Hj w) as [-> ->].
  cbn [bind destructure_id_key envelope].
  destruct (get_property_envelope (share_id w) (buf2hex (share_key w))) as [Hi Hk].
  rewrite Hi, Hk. cbn [fst snd D1_first bind].
  destruct (shares (DB env) !! share_id w) as [row|]; [|reflexivity].
  cbn [keyHex_bytes]. rewrite hexToBytes_buf2hex by apply share_key_nonempty.
  reflexivity.
Qed.

(** Retrieve after Share, on the store Share leaves. *)
Lemma retrieve_after_share (env : Bindings) (w : Draws) (text : jsstring) :
  AEAD_correct P -> digest_256 P -> JSON_envelope P ->
  retrieve P {| DB := share_database P (DB env) w text; SECRET_KEY := SECRET_KEY env |}
    (Some (share_token P (SECRET_KEY env) w)) =
  c_text (TextDecoder_decode (TextEncoder_encode text)) 200.
Proof.
  intros Hc Hd Hj.
  pose proof (retrieve_share_token
                {| DB := share_database P (DB env) w text;
                   SECRET_KEY := SECRET_KEY env |} w Hc Hd Hj) as H.
  cbn [DB SECRET_KEY] in H. rewrite H.
  cbn [shares share_database]. rewrite lookup_insert_eq.
  cbn [content share_row].
  rewrite decryptData_sealed by (first [exact Hc | apply importKey_share_key]).
  reflexivity.
Qed.
End Handler_facts.

(** ** The reference platform meets the contracts *)

Lemma sum_bytes_app (xs ys : list byte) :
  sum_bytes (xs ++ ys) = sum_bytes xs + sum_bytes ys.
Proof.
  induction xs as [|x xs IH]; [reflexivity|].
  cbn [app sum_bytes fold_right] in *. fold (sum_bytes (xs ++ ys)).
  fold (sum_bytes xs). lia.
Qed.

Lemma sum_bytes_zeros (n : nat) : sum_bytes (repeat x00 n) = 0.
Proof. induction n as [|n IH]; [reflexivity|]. cbn. exact IH. Qed.

Lemma ref_encrypt_checksum (key iv plaintext : list byte) :
  sum_bytes (key ++ iv ++ ref_encrypt key iv plaintext) mod 256 = 0.
Proof.
  unfold ref_encrypt.
  rewrite (app_assoc iv), (app_assoc key), sum_bytes_app.
  change (sum_bytes (byte_of_Z (- sum_bytes (key ++ iv ++ plaintext)) :: repeat x00 15))
    with (Z_of_byte (byte_of_Z (- sum_bytes (key ++ iv ++ plaintext)))
          + sum_bytes (repeat x00 15)).
  rewrite sum_bytes_zeros, Z_of_byte_of_Z.
  Z.div_mod_to_equations. lia.
Qed.

Lemma reference_AEAD_correct : AEAD_correct reference.
Proof.
  intros key iv plaintext _. cbn [AES_GCM_decrypt AES_GCM_encrypt reference].
  unfold ref_decrypt. rewrite ref_encrypt_checksum.
  assert (Hlen : length (ref_encrypt key iv plaintext) = (length plaintext + 16)%nat).
  { unfold ref_encrypt. rewrite length_app. cbn [length]. rewrite repeat_length. lia. }
  rewrite Hlen. rewrite (proj2 (Nat.ltb_ge _ _)) by lia.
  simpl (0 =? 0). cbv iota. f_equal.
  unfold ref_encrypt. apply take_app_length'. lia.
Qed.

Lemma reference_AEAD_rejects_short : AEAD_rejects_short reference.
Proof.
  intros key iv data H. cbn [AES_GCM_decrypt reference]. unfold ref_decrypt.
  rewrite (proj2 (Nat.ltb_lt _ _)) by exact H. reflexivity.
Qed.

Lemma differ_in_one_byte_sum (l l' : list byte) :
  differ_in_one_byte l l' ->
  exists d, sum_bytes l' = sum_bytes l + d /\ -256 < d < 256 /\ d <> 0.
Proof.
  induction 1 as [b b' l Hne | b l l' _ (d & Hs & Hd)].
  - exists (Z_of_byte b' - Z_of_byte b).
    pose proof (Z_of_byte_range b). pose proof (Z_of_byte_range b').
    cbn [sum_bytes fold_right]. repeat split; try lia.
    intros Heq. apply Hne. apply Z_of_byte_inj. lia.
  - exists d. cbn [sum_bytes fold_right] in *. repeat split; try lia.
    fold (sum_bytes l'). fold (sum_bytes l). lia.
Qed.

Lemma reference_AEAD_detects_byte_change : AEAD_detects_byte_change reference.
Proof.
  intros key iv plaintext blob _ _ Hdiff.
  cbn [AES_GCM_decrypt AES_GCM_encrypt reference] in *. unfold ref_decrypt.
  destruct (length (drop 12 blob) <? 16)%nat; [reflexivity|].
  rewrite take_drop.
  destruct (differ_in_one_byte_sum _ _ Hdiff) as (d & Hs & Hd & Hnz).
  pose proof (ref_encrypt_checksum key iv plaintext) as Hc.
  rewrite sum_bytes_app in Hc. rewrite sum_bytes_app, Hs.
  rewrite (proj2 (Z.eqb_neq _ _)); [reflexivity|].
  Z.div_mod_to_equations. lia.
Qed.

Lemma reference_digest_256 : digest_256 reference.
Proof.
  intros data. cbn [SHA_256 reference]. unfold ref_digest.
  rewrite length_take, length_app, repeat_length. lia.
Qed.

Lemma ref_unquote_quote (s tail : jsstring) :
  ref_unquote (ref_quote s ++ 34 :: tail) = Some (s, tail).
Proof.
  induction s as [|c s IH]; [reflexivity|].
  cbn [ref_quote].
  destruct (Z.eqb_spec c 34) as [->|H34].
  - cbn. cbn in IH. rewrite IH. reflexivity.
  - destruct (Z.eqb_spec c 92) as [->|H92].
    + cbn. cbn in IH. rewrite IH. reflexivity.
    + cbn [orb app ref_unquote].
      rewrite (proj2 (Z.eqb_neq _ _) H34), (proj2 (Z.eqb_neq _ _) H92), IH.
      reflexivity.
Qed.

Lemma expect_prefix (prefix tail : jsstring) :
  expect prefix (prefix ++ tail) = Some tail.
Proof.
  unfold expect. rewrite take_app_length, drop_app_length.
  rewrite bool_decide_eq_true_2 by reflexivity. reflexivity.
Qed.

Lemma ref_unquote_quote_app (s more tail : jsstring) :
  ref_unquote (ref_quote s ++ (34 :: more) ++ tail) = Some (s, more ++ tail).
Proof. exact (ref_unquote_quote s (more ++ tail)). Qed.

Lemma ref_parse_stringify (id key : jsstring) :
  ref_parse (ref_stringify (envelope id key)) = Some (envelope id key).
Proof.
  unfold envelope, ref_stringify, ref_parse.
  rewrite bool_decide_eq_false_2 by discriminate.
  rewrite expect_prefix. cbn [mbind option_bind].
  rewrite ref_unquote_quote_app. cbn [mbind option_bind].
  rewrite expect_prefix. cbn [mbind option_bind].
  rewrite ref_unquote_quote_app. cbn [mbind option_bind].
  rewrite expect_prefix. cbn [mbind option_bind].
  rewrite ref_unquote_quote_app. cbn [mbind option_bind].
  rewrite expect_prefix. cbn [mbind option_bind].
  rewrite ref_unquote_quote. cbn [mbind option_bind].
  rewrite bool_decide_eq_true_2 by reflexivity.
  reflexivity.
Qed.

Lemma ref_quote_plain (s : jsstring) :
  forallb is_plain s = true -> ref_quote s = s.
Proof.
  induction s as [|c s IH]; [reflexivity|].
  cbn [forallb ref_quote]. intros H. apply andb_true_iff in H as [Hc Hs].
  unfold is_plain in Hc.
  rewrite (proj2 (Z.eqb_neq c 34)), (proj2 (Z.eqb_neq c 92)) by lia.
  cbn [orb]. rewrite IH by exact Hs. reflexivity.
Qed.

Lemma plain_ascii (s : jsstring) :
  forallb is_plain s = true -> forallb is_ascii s = true.
Proof.
  rewrite !forallb_forall. intros H c Hc. specialize (H c Hc).
  unfold is_plain in H. unfold is_ascii. lia.
Qed.

Lemma reference_JSON_envelope : JSON_envelope reference.
Proof.
  intros id key Hid Hkey. cbn [JSON_stringify JSON_parse reference].
  split; [|apply ref_parse_stringify].
  unfold envelope, ref_stringify.
  rewrite (ref_quote_plain id), (ref_quote_plain key) by assumption.
  rewrite !forallb_app, (plain_ascii id), (plain_ascii key) by assumption.
  reflexivity.
Qed.

(** ** One inverted bit in a hex string *)

Lemma hex_pair_digits (b : byte) :
  exists h l, hex_pair b = [h; l] /\
    is_lower_hex_digit h = true /\ is_lower_hex_digit l = true.
Proof. destruct b; do 2 eexists; (split; [reflexivity | split; reflexivity]). Qed.

(** One inverted bit never turns a hex digit into a line terminator, so the
    pairs of the string stay where they are. *)
Lemma flipped_digit_matches (h j : Z) :
  is_lower_hex_digit h = true -> 0 <= j < 16 ->
  is_line_terminator (Z.lxor h (Z.shiftl 1 j)) = false.
Proof.
  intros Hh Hj.
  assert (Hjs : j = 0 \/ j = 1 \/ j = 2 \/ j = 3 \/ j = 4 \/ j = 5 \/ j = 6 \/ j = 7 \/
                j = 8 \/ j = 9 \/ j = 10 \/ j = 11 \/ j = 12 \/ j = 13 \/ j = 14 \/ j = 15)
    by lia.
  assert (Hhs : h = 48 \/ h = 49 \/ h = 50 \/ h = 51 \/ h = 52 \/ h = 53 \/ h = 54 \/
                h = 55 \/ h = 56 \/ h = 57 \/ h = 97 \/ h = 98 \/ h = 99 \/ h = 100 \/
                h = 101 \/ h = 102)
    by (unfold is_lower_hex_digit in Hh; lia).
  clear Hh Hj.
  repeat (destruct Hjs as [Hjs|Hjs]); subst j;
  repeat (destruct Hhs as [Hhs|Hhs]); subst h; reflexivity.
Qed.

Lemma flip_bit_0 (j c : Z) (s : jsstring) :
  flip_bit 0 j (c :: s) = Z.lxor c (Z.shiftl 1 j) :: s.
Proof. reflexivity. Qed.

Lemma flip_bit_S (i : nat) (j c : Z) (s : jsstring) :
  flip_bit (S i) j (c :: s) = c :: flip_bit i j s.
Proof.
  unfold flip_bit. change ((c :: s) !! S i) with (s !! i).
  destruct (s !! i); reflexivity.
Qed.

Lemma decode_pairs_two (h l : Z) (rest : jsstring) :
  is_line_terminator h = false -> is_line_terminator l = false ->
  decode_pairs (h :: l :: rest) = ToUint8 (parseInt16 [h; l]) :: decode_pairs rest.
Proof.
  intros Hh Hl. unfold decode_pairs. cbn [regex_pairs]. rewrite Hh, Hl. reflexivity.
Qed.

Lemma byte_eq_or_neq (a b : byte) : a = b \/ a <> b.
Proof.
  destruct (Z.eq_dec (Z_of_byte a) (Z_of_byte b)) as [H|H].
  - left. apply Z_of_byte_inj, H.
  - right. congruence.
Qed.

(** Inverting one bit of one character of a hex string changes at most the
    byte that the character belongs to. *)
Lemma decode_pairs_flip_bit (blob : list byte) (i : nat) (j : Z) :
  (i < length (buf2hex blob))%nat -> 0 <= j < 16 ->
  decode_pairs (flip_bit i j (buf2hex blob)) = blob \/
  differ_in_one_byte blob (decode_pairs (flip_bit i j (buf2hex blob))).
Proof.
  revert i. induction blob as [|b bs IH]; intros i Hi Hj; [simpl in Hi; lia|].
  rewrite buf2hex_cons in *.
  pose proof (decode_pairs_hex_pair b (buf2hex bs)) as Hdec.
  destruct (hex_pair_digits b) as (h & l & E & Hh & Hl). rewrite E in *.
  cbn [app] in *.
  assert (Hlt : forall c, is_lower_hex_digit c = true -> is_line_terminator c = false).
  { intros c Hc. unfold is_lower_hex_digit in Hc. unfold is_line_terminator. lia. }
  destruct i as [|[|i]].
  - rewrite flip_bit_0, decode_pairs_two, decode_pairs_buf2hex
      by auto using flipped_digit_matches.
    rewrite decode_pairs_two, decode_pairs_buf2hex in Hdec by auto.
    injection Hdec as Hb.
    destruct (byte_eq_or_neq (ToUint8 (parseInt16 [Z.lxor h (Z.shiftl 1 j); l])) b)
      as [->|Hne].
    + left. reflexivity.
    + right. constructor. congruence.
  - rewrite flip_bit_S, flip_bit_0, decode_pairs_two, decode_pairs_buf2hex
      by auto using flipped_digit_matches.
    rewrite decode_pairs_two, decode_pairs_buf2hex in Hdec by auto.
    injection Hdec as Hb.
    destruct (byte_eq_or_neq (ToUint8 (parseInt16 [h; Z.lxor l (Z.shiftl 1 j)])) b)
      as [->|Hne].
    + left. reflexivity.
    + right. constructor. congruence.
  - rewrite !flip_bit_S, decode_pairs_two by auto.
    rewrite decode_pairs_two, decode_pairs_buf2hex in Hdec by auto.
    injection Hdec as Hb. rewrite Hb.
    destruct (IH i) as [Heq|Hd]; [cbn [length] in Hi; lia | exact Hj | |].
    + left. rewrite Heq. reflexivity.
    + right. constructor. exact Hd.
Qed.

Lemma differ_in_one_byte_nonempty (l l' : list byte) :
  differ_in_one_byte l l' -> l' <> [].
Proof. destruct 1; discriminate. Qed.

Lemma differ_in_one_byte_neq (l l' : list byte) :
  differ_in_one_byte l l' -> l <> l'.
Proof. induction 1; congruence. Qed.

(** ** The text of a request is well formed *)

Lemma utf8_lead_other (b : Z) :
  0x80 <= b <= 0xC1 \/ 0xF5 <= b ->
  utf8_lead b = (Some 0xFFFD, utf8_start).
Proof. intros [H|H]; unfold utf8_lead; eval_tests; reflexivity. Qed.

Lemma utf8_lead_pending (b : Z) :
  0 <= b < 256 ->
  (forall c, fst (utf8_lead b) = Some c -> is_scalar_value c) /\
  utf8_pending (snd (utf8_lead b)).
Proof.
  intros Hb. unfold utf8_pending.
  assert (Hcases : 0 <= b <= 0x7F \/ (0x80 <= b <= 0xC1 \/ 0xF5 <= b) \/
                   0xC2 <= b <= 0xDF \/ 0xE0 <= b <= 0xEF \/ 0xF0 <= b <= 0xF4) by lia.
  destruct Hcases as [H|[H|[H|[H|H]]]].
  - rewrite utf8_lead_1 by exact H. cbn [fst snd]. split; [|left; reflexivity].
    intros c [= <-]. unfold is_scalar_value. lia.
  - rewrite utf8_lead_other by exact H. cbn [fst snd]. split; [|left; reflexivity].
    intros c [= <-]. unfold is_scalar_value. lia.
  - rewrite utf8_lead_2 by exact H. cbn [fst snd]. split; [discriminate|].
    right. left. cbn. lia.
  - rewrite utf8_lead_3 by exact H. cbn [fst snd]. split; [discriminate|].
    right. right. left. cbn.
    destruct (Z.eqb_spec b 0xE0), (Z.eqb_spec b 0xED),
             (Z.eqb_spec (b - 224) 0), (Z.eqb_spec (b - 224) 13); lia.
  - rewrite utf8_lead_4 by exact H. cbn [fst snd]. split; [discriminate|].
    do 4 right. left. cbn.
    destruct (Z.eqb_spec b 0xF0), (Z.eqb_spec b 0xF4),
             (Z.eqb_spec (b - 240) 0), (Z.eqb_spec (b - 240) 4); lia.
Qed.

(** A byte outside the boundaries of the open sequence. *)
Lemma utf8_decode_restart (st : Utf8Decoder) (b : Z) (rest : list Z) :
  bytes_needed st <> 0 ->
  ~ (lower_boundary st <= b <= upper_boundary st) ->
  utf8_decode st (b :: rest) =
  0xFFFD :: emit (fst (utf8_lead b)) (utf8_decode (snd (utf8_lead b)) rest).
Proof.
  intros Hn Hb. cbn [utf8_decode]. rewrite (proj2 (Z.eqb_neq _ _) Hn).
  destruct (Z.leb_spec (lower_boundary st) b), (Z.leb_spec b (upper_boundary st));
    cbn [andb]; try reflexivity. lia.
Qed.

Lemma emit_scalar (o : option Z) (l : list Z) :
  (forall c, o = Some c -> is_scalar_value c) ->
  Forall is_scalar_value l -> Forall is_scalar_value (emit o l).
Proof. intros Ho Hl. destruct o; cbn [emit]; [constructor; auto | exact Hl]. Qed.

(** The decoder emits scalar values only. *)
Lemma utf8_decode_scalar (bs : list Z) (st : Utf8Decoder) :
  utf8_pending st -> Forall (fun b => 0 <= b < 256) bs ->
  Forall is_scalar_value (utf8_decode st bs).
Proof.
  assert (Hrep : is_scalar_value 0xFFFD) by (unfold is_scalar_value; lia).
  revert st. induction bs as [|b rest IH]; intros st Hst Hbs.
  - cbn [utf8_decode].
    destruct (bytes_needed st =? 0); [constructor | constructor; [exact Hrep | constructor]].
  - inversion Hbs as [|? ? Hb Hrest]; subst.
    destruct (utf8_lead_pending b Hb) as [Hemit Hnext].
    assert (Hlead : Forall is_scalar_value
                      (emit (fst (utf8_lead b)) (utf8_decode (snd (utf8_lead b)) rest)))
      by (apply emit_scalar; [exact Hemit | apply IH; assumption]).
    destruct Hst as [->|Hopen]; [rewrite utf8_decode_lead; exact Hlead|].
    assert (Hn : bytes_needed st <> 0) by (decompose [and or] Hopen; lia).
    destruct (Z_le_dec (lower_boundary st) b) as [Hlo|Hlo];
      [destruct (Z_le_dec b (upper_boundary st)) as [Hhi|Hhi]|];
      [|rewrite utf8_decode_restart by lia; constructor; [exact Hrep | exact Hlead] ..].
    assert (Hc : 0x80 <= b <= 0xBF).
    { decompose [and or] Hopen;
        repeat match goal with
               | H : _ = (if ?t then _ else _) |- _ => destruct t
               end; lia. }
    rewrite utf8_decode_continue by (first [exact Hn | lia]).
    destruct Hopen as [H|[H|[H|[H|[H|H]]]]];
      destruct H as (Hneed & Hseen & Hl & Hu & Hcp);
      rewrite Hneed, Hseen; cbn [Z.eqb Z.add Pos.eqb Pos.add Pos.succ];
      cbv iota.
    + constructor; [|apply IH; [left; reflexivity | exact Hrest]].
      unfold is_scalar_value. lia.
    + apply IH; [|exact Hrest]. right. right. right. left. cbn.
      repeat match goal with
             | H : _ = (if ?t then _ else _) |- _ => destruct t eqn:?
             end; lia.
    + constructor; [|apply IH; [left; reflexivity | exact Hrest]].
      unfold is_scalar_value. lia.
    + apply IH; [|exact Hrest]. do 5 right. left. cbn.
      repeat match goal with
             | H : _ = (if ?t then _ else _) |- _ => destruct t eqn:?
             end; lia.
    + apply IH; [|exact Hrest]. do 6 right. cbn. lia.
    + constructor; [|apply IH; [left; reflexivity | exact Hrest]].
      unfold is_scalar_value. lia.
Qed.

Lemma utf16_encode_is_text (cps : list Z) :
  Forall is_scalar_value cps ->
  is_text (concat (map utf16_encode_code_point cps)).
Proof.
  unfold is_text. induction 1 as [|c cps [Hr Hs] _ [IHu IHw]]; [split; [constructor|reflexivity]|].
  cbn [map concat]. unfold utf16_encode_code_point.
  destruct (Z.ltb_spec c 0x10000) as [Hlt|Hge]; cbn [app].
  - split; [constructor; [unfold is_code_unit; lia | exact IHu]|].
    cbn [isWellFormed].
    assert (is_high_surrogate c = false) as ->
      by (unfold is_high_surrogate; lia).
    assert (is_low_surrogate c = false) as ->
      by (unfold is_low_surrogate; lia).
    exact IHw.
  - rewrite land_1023, (shiftr_div _ 10) by lia.
    assert (H1 : 0 <= (c - 65536) / 2 ^ 10 < 1024)
      by (Z.div_mod_to_equations; lia).
    assert (H2 : 0 <= (c - 65536) mod 1024 < 1024)
      by (apply Z.mod_pos_bound; lia).
    split; [constructor; [unfold is_code_unit; lia |
                          constructor; [unfold is_code_unit; lia | exact IHu]]|].
    cbn [isWellFormed].
    assert (is_high_surrogate (0xD800 + (c - 65536) / 2 ^ 10) = true) as ->
      by (unfold is_high_surrogate; lia).
    assert (is_low_surrogate (0xDC00 + (c - 65536) mod 1024) = true) as ->
      by (unfold is_low_surrogate; lia).
    exact IHw.
Qed.

Lemma strip_BOM_scalar (cps : list Z) :
  Forall is_scalar_value cps -> Forall is_scalar_value (strip_BOM cps).
Proof.
  intros H. destruct H as [|c cps Hc Hcps]; [constructor|].
  cbn [strip_BOM]. destruct (c =? 0xFEFF); [exact Hcps | constructor; assumption].
Qed.

(** Whatever the bytes, the decoder returns a well-formed string: the text
    of a request is always one. *)
Lemma TextDecoder_decode_is_text (bytes : list byte) :
  is_text (TextDecoder_decode bytes).
Proof.
  unfold TextDecoder_decode. apply utf16_encode_is_text, strip_BOM_scalar.
  apply utf8_decode_scalar; [left; reflexivity|].
  apply List.Forall_forall. intros z Hz. apply in_map_iff in Hz as (b & <- & _).
  apply Z_of_byte_range.
Qed.

Lemma Request_text_is_text (request_body : list byte) :
  is_text (Request_text request_body).
Proof. apply TextDecoder_decode_is_text. Qed.

(** ** Identifiers *)



(** ** Facts about the two handlers *)

Lemma error_responses_distinct :
  DecryptionError <> InvalidTokenError /\ NotFoundError <> InvalidTokenError /\
  StorageError <> InvalidTokenError /\ DecryptionError <> NotFoundError.
Proof. repeat split; discriminate. Qed.

Lemma valid_text_hello_world : valid_text hello_world.
Proof. split; vm_compute; [lia | discriminate]. Qed.

Lemma hello_world_is_text : is_text hello_world /\ hd 0 hello_world <> 0xFEFF.
Proof. apply ascii_is_text. reflexivity. Qed.

(** Share on an accepted text, step by step. *)
Lemma share_valid_text (P : Platform) (env : Bindings) (w : Draws) (text : jsstring) :
  valid_text text ->
  share P env w text =
  if D1_fault w then (Ok StorageError, DB env)
  else match encryptData P (share_payload P w) (getMasterKey P (SECRET_KEY env))
               (token_iv_source w) with
       | Throw e => (Throw e, share_database P (DB env) w text)
       | Ok token => (Ok (c_text token 200), share_database P (DB env) w text)
       end.
Proof.
  intros [Hlen Hmax]. unfold share.
  destruct text as [|c t] eqn:E; [simpl in Hlen; lia|]. rewrite <- E in *.
  destruct (Z.gtb_spec (Z.of_nat (length text)) (1024 * 1024)); [lia|].
  change (getRandomValues 32 (dataKey_source w)) with (share_key w).
  rewrite encryptData_imported by apply importKey_share_key.
  unfold D1_run_insert. destruct (D1_fault w); reflexivity.
Qed.

(** Share on a text it rejects. *)
Lemma share_invalid_text (P : Platform) (env : Bindings) (w : Draws) (text : jsstring) :
  ~ valid_text text ->
  share P env w text = (Ok InputError_text_required, DB env) \/
  share P env w text = (Ok InputError_text_too_large, DB env).
Proof.
  intros Hn. unfold share. destruct text as [|c t] eqn:E; [left; reflexivity|].
  rewrite <- E in *. right.
  destruct (Z.gtb_spec (Z.of_nat (length text)) (1024 * 1024)); [reflexivity|].
  exfalso. apply Hn. split; [rewrite E; simpl; lia | lia].
Qed.

(** What Retrieve does once the token has opened and its payload has parsed
    to a value with a string under [id]. *)
Lemma retrieve_try_parsed (P : Platform) (env : Bindings) (token payload : jsstring)
    (v : JSValue) (id : jsstring) (keyHex : option JSValue) :
  decryptData P token (getMasterKey P (SECRET_KEY env)) = Ok payload ->
  JSON_parse P payload = Some v ->
  destructure_id_key v = Ok (Some (JString id), keyHex) ->
  retrieve_try P env token =
  match shares (DB env) !! id with
  | None => Ok NotFoundError
  | Some row =>
    keyBytes <- keyHex_bytes keyHex ;;
    content <- decryptData P (content row) keyBytes ;;
    Ok (c_text content 200)
  end.
Proof.
  intros Hd Hp Hk. unfold retrieve_try. rewrite Hd, Hp. cbn [bind].
  rewrite Hk. cbn [bind fst snd D1_first]. reflexivity.
Qed.

(** Why [decryptData] throws: the string has no match, the key does not
    import, or the cipher rejects the data. *)
Lemma decryptData_no_match (P : Platform) (hexStr : jsstring) (key : list byte) :
  String_match_pairs hexStr = None -> decryptData P hexStr key = Throw TypeError.
Proof. intros H. unfold decryptData, hexToBytes. rewrite H. reflexivity. Qed.

Lemma decryptData_rejected (P : Platform) (hexStr : jsstring) (key bytes : list byte) :
  hexToBytes hexStr = Ok bytes ->
  AES_GCM_decrypt P key (take 12 bytes) (drop 12 bytes) = None ->
  decryptData P hexStr key = Throw DataError \/
  decryptData P hexStr key = Throw (Error "Decryption failed").
Proof.
  intros Hb Hd. unfold decryptData. rewrite Hb. cbn [bind].
  destruct (importKey key) as [k|e] eqn:Ek.
  - apply importKey_Ok in Ek. subst k. cbn [bind]. rewrite Hd. right. reflexivity.
  - left. unfold importKey in Ek. destruct (_ || _); [discriminate|].
    injection Ek as <-. reflexivity.
Qed.

Lemma length_regex_pairs (s : jsstring) :
  (2 * length (regex_pairs s) <= length s + 1)%nat.
Proof.
  induction s as [| c | c d rest IH1 IH2] using jsstring_pair_ind.
  - simpl. lia.
  - simpl. destruct (is_line_terminator c); simpl; lia.
  - change (regex_pairs (c :: d :: rest)) with
      (if is_line_terminator c then regex_pairs (d :: rest)
       else if is_line_terminator d then [c] :: regex_pairs rest
       else [c; d] :: regex_pairs rest).
    destruct (is_line_terminator c); [cbn [length] in *; lia|].
    destruct (is_line_terminator d); cbn [length] in *; lia.
Qed.

Lemma hex_string_matches (s : jsstring) :
  is_hex_string s -> exists bytes, hexToBytes s = Ok bytes /\ bytes <> [] /\
                                   (2 * length bytes <= length s + 1)%nat.
Proof.
  intros [Hn Hh]. destruct s as [|c t]; [contradiction|].
  pose proof (length_regex_pairs (c :: t)) as Hl.
  cbn [forallb] in Hh. apply andb_true_iff in Hh as [Hc _].
  assert (is_line_terminator c = false) as Hlt.
  { unfold is_hex_digit, is_lower_hex_digit in Hc. unfold is_line_terminator. lia. }
  unfold hexToBytes, String_match_pairs.
  destruct (regex_pairs (c :: t)) as [|p ps] eqn:E.
  - exfalso. cbn [regex_pairs] in E. rewrite Hlt in E.
    destruct t as [|d t']; [discriminate|]. destruct (is_line_terminator d); discriminate.
  - eexists. split; [reflexivity|]. split; [discriminate|].
    rewrite length_map. exact Hl.
Qed.

(** A blob too short for a nonce and a tag does not open, whatever its
    bytes. *)
Lemma decryptData_short (P : Platform) (hexStr : jsstring) (key : list byte) :
  AEAD_rejects_short P -> (length hexStr < 55)%nat ->
  exists e, decryptData P hexStr key = Throw e /\
            (importKey key = Ok key -> String_match_pairs hexStr <> None ->
             e = Error "Decryption failed").
Proof.
  intros Hs Hl. unfold decryptData, hexToBytes.
  pose proof (length_regex_pairs hexStr) as Hp.
  unfold String_match_pairs. destruct (regex_pairs hexStr) as [|p ps] eqn:E.
  - exists TypeError. split; [reflexivity|]. intros _ Hm. contradiction.
  - cbn [bind]. destruct (importKey key) as [k|e] eqn:Ek.
    + apply importKey_Ok in Ek. subst k. cbn [bind]. rewrite Hs.
      * eexists. split; [reflexivity|]. reflexivity.
      * rewrite length_drop, length_map. lia.
    + exists e. split; [reflexivity|]. intros Hk. discriminate Hk.
Qed.

(** What a status 200 of Share means: the text was accepted, the insert went
    through, and token and database are the ones of this call. *)
Lemma share_returns_token (P : Platform) (env : Bindings) (w : Draws)
    (text token : jsstring) (db' : D1Database) :
  share P env w text = (Ok (c_text token 200), db') ->
  valid_text text /\ D1_fault w = false /\
  importKey (getMasterKey P (SECRET_KEY env)) = Ok (getMasterKey P (SECRET_KEY env)) /\
  token = share_token P (SECRET_KEY env) w /\
  db' = share_database P (DB env) w text.
Proof.
  intros Hs.
  assert (Hv : valid_text text).
  { destruct (le_lt_dec 1 (length text)) as [H1|H1];
      [destruct (Z_le_gt_dec (Z.of_nat (length text)) (1024 * 1024)) as [H2|H2]|].
    - split; assumption.
    - destruct (share_invalid_text P env w text) as [E|E];
        [unfold valid_text; lia | rewrite E in Hs; discriminate Hs ..].
    - destruct (share_invalid_text P env w text) as [E|E];
        [unfold valid_text; lia | rewrite E in Hs; discriminate Hs ..]. }
  split; [exact Hv|].
  rewrite (share_valid_text P env w text Hv) in Hs.
  destruct (D1_fault w); [discriminate Hs|]. split; [reflexivity|].
  unfold encryptData in Hs.
  destruct (importKey (getMasterKey P (SECRET_KEY env))) as [k|e] eqn:Ek;
    [|discriminate Hs].
  pose proof (importKey_Ok _ _ Ek) as ->. cbn [bind] in Hs.
  injection Hs as Ht Hdb. split; [reflexivity|]. split; [|congruence].
  symmetry. exact Ht.
Qed.

(** Retrieve after Share returns the text as the text codec hands it back. *)
Lemma share_then_retrieve (P : Platform) (env : Bindings) (w : Draws)
    (text token : jsstring) (db' : D1Database) :
  AEAD_correct P -> digest_256 P -> JSON_envelope P ->
  share P env w text = (Ok (c_text token 200), db') ->
  retrieve P {| DB := db'; SECRET_KEY := SECRET_KEY env |} (Some token) =
  c_text (TextDecoder_decode (TextEncoder_encode text)) 200.
Proof.
  intros Hc Hd Hj Hs.
  destruct (share_returns_token P env w text token db' Hs) as (_ & _ & _ & -> & ->).
  apply retrieve_after_share; assumption.
Qed.

(** The round trip, for every accepted text that is well formed and does not
    start with U+FEFF. *)
Lemma share_retrieve_roundtrip (P : Platform) (env : Bindings) (w : Draws)
    (text : jsstring) :
  AEAD_correct P -> digest_256 P -> JSON_envelope P ->
  valid_text text -> is_text text -> hd 0 text <> 0xFEFF -> D1_fault w = false ->
  exists token db',
    share P env w text = (Ok (c_text token 200), db') /\
    retrieve P {| DB := db'; SECRET_KEY := SECRET_KEY env |} (Some token) =
    c_text text 200.
Proof.
  intros Hc Hd Hj Hv Ht Hb Hf. do 2 eexists.
  pose proof (share_accepted P env w text Hd Hv Hf) as Hs.
  split; [exact Hs|].
  rewrite (share_then_retrieve P env w text _ _ Hc Hd Hj Hs).
  rewrite text_codec_roundtrip by assumption. reflexivity.
Qed.

Lemma share_database_cases (P : Platform) (env : Bindings) (w : Draws) (text : jsstring) :
  snd (share P env w text) = DB env \/
  (valid_text text /\ D1_fault w = false /\
   snd (share P env w text) = share_database P (DB env) w text).
Proof.
  destruct (le_lt_dec 1 (length text)) as [H1|H1];
    [destruct (Z_le_gt_dec (Z.of_nat (length text)) (1024 * 1024)) as [H2|H2]|].
  - rewrite (share_valid_text P env w text (conj H1 H2)).
    destruct (D1_fault w); [left; reflexivity|]. right.
    repeat split; try assumption. destruct (encryptData _ _ _ _); reflexivity.
  - left. destruct (share_invalid_text P env w text) as [E|E];
      [unfold valid_text; lia | rewrite E; reflexivity ..].
  - left. destruct (share_invalid_text P env w text) as [E|E];
      [unfold valid_text; lia | rewrite E; reflexivity ..].
Qed.

(** [decryptData] on a string whose matches decode to at least one byte. *)
Lemma decryptData_decoded (P : Platform) (hexStr : jsstring) (key : list byte) :
  decode_pairs hexStr <> [] -> importKey key = Ok key ->
  decryptData P hexStr key =
  match AES_GCM_decrypt P key (take 12 (decode_pairs hexStr))
          (drop 12 (decode_pairs hexStr)) with
  | Some decrypted => Ok (TextDecoder_decode decrypted)
  | None => Throw (Error "Decryption failed")
  end.
Proof.
  intros Hn Hk. unfold decryptData.
  rewrite hexToBytes_decode_pairs by exact Hn. cbn [bind]. rewrite Hk. reflexivity.
Qed.

(** Retrieve on a token of Share when one bit of the stored content has been
    inverted. *)
Lemma retrieve_tampered (P : Platform) (env : Bindings) (w : Draws)
    (text : jsstring) (i : nat) (j : Z) :
  AEAD_correct P -> AEAD_detects_byte_change P -> digest_256 P -> JSON_envelope P ->
  (i < length (sealed P text (share_key w) (content_iv_source w)))%nat ->
  0 <= j < 16 ->
  let stored := sealed P text (share_key w) (content_iv_source w) in
  let r := retrieve P {| DB := tamper (share_database P (DB env) w text) (share_id w) i j;
                         SECRET_KEY := SECRET_KEY env |}
             (Some (share_token P (SECRET_KEY env) w)) in
  (decode_pairs (flip_bit i j stored) = decode_pairs stored /\
   r = c_text (TextDecoder_decode (TextEncoder_encode text)) 200) \/
  (decode_pairs (flip_bit i j stored) <> decode_pairs stored /\ r = DecryptionError).
Proof.
  intros Hc Hi Hd Hj Hlen Hbit. cbv zeta.
  set (stored := sealed P text (share_key w) (content_iv_source w)) in *.
  pose proof (retrieve_share_token P
                {| DB := tamper (share_database P (DB env) w text) (share_id w) i j;
                   SECRET_KEY := SECRET_KEY env |} w Hc Hd Hj) as H.
  cbn [DB SECRET_KEY] in H. rewrite H. clear H.
  cbn [shares tamper share_database].
  rewrite lookup_alter_eq, lookup_insert_eq. cbn [fmap option_fmap option_map].
  cbn [content share_row]. fold stored.
  assert (Hflip : decode_pairs (flip_bit i j stored) = decode_pairs stored \/
                  differ_in_one_byte (decode_pairs stored)
                    (decode_pairs (flip_bit i j stored))).
  { unfold stored, sealed. rewrite decode_pairs_buf2hex.
    apply decode_pairs_flip_bit; assumption. }
  assert (Hs : decode_pairs stored =
               getRandomValues 12 (content_iv_source w) ++
               AES_GCM_encrypt P (share_key w) (getRandomValues 12 (content_iv_source w))
                 (TextEncoder_encode text))
    by apply decode_pairs_buf2hex.
  destruct Hflip as [Heq|Hdiff].
  - left. split; [exact Heq|].
    rewrite decryptData_decoded;
      [|rewrite Heq, Hs; intros E; apply (f_equal length) in E;
        rewrite length_app, length_getRandomValues in E; discriminate E
       |apply importKey_share_key].
    rewrite Heq, Hs.
    rewrite take_app_length', drop_app_length'
      by (symmetry; apply length_getRandomValues).
    rewrite Hc by apply importKey_share_key. reflexivity.
  - right. split.
    + intros E. apply (differ_in_one_byte_neq _ _ Hdiff). congruence.
    + rewrite decryptData_decoded;
        [|exact (differ_in_one_byte_nonempty _ _ Hdiff) | apply importKey_share_key].
      rewrite Hs in Hdiff.
      rewrite (Hi (share_key w) (getRandomValues 12 (content_iv_source w))
                 (TextEncoder_encode text) _ (importKey_share_key w)
                 (length_getRandomValues _ _) Hdiff).
      reflexivity.
Qed.

Lemma sample_share :
  share reference sample_env sample_draws hello_world =
  (Ok (c_text (share_token reference (SECRET_KEY sample_env) sample_draws) 200),
   share_database reference (DB sample_env) sample_draws hello_world).
Proof.
  apply share_accepted;
    [exact reference_digest_256 | exact valid_text_hello_world | reflexivity].
Qed.





(** Line terminators after the hex of a buffer are not part of any match. *)
Lemma decode_pairs_buf2hex_app (bs : list byte) (rest : jsstring) :
  decode_pairs (buf2hex bs ++ rest) = bs ++ decode_pairs rest.
Proof.
  induction bs as [|b bs IH]; [reflexivity|].
  rewrite buf2hex_cons, <- app_assoc, decode_pairs_hex_pair, IH. reflexivity.
Qed.

Lemma hexToBytes_trailing_terminator (blob : list byte) (c : Z) :
  blob <> [] -> is_line_terminator c = true ->
  hexToBytes (buf2hex blob ++ [c]) = Ok blob.
Proof.
  intros Hn Hc.
  assert (E : decode_pairs (buf2hex blob ++ [c]) = blob).
  { rewrite decode_pairs_buf2hex_app. unfold decode_pairs. cbn [regex_pairs].
    rewrite Hc. cbn [map]. apply app_nil_r. }
  rewrite hexToBytes_decode_pairs; rewrite E; [reflexivity | exact Hn].
Qed.

(** The invalid-token answer is the answer to a token that [decryptData]
    throws on, and to no other. *)
Lemma retrieve_invalid_token_iff (P : Platform) (env : Bindings) (token : jsstring) :
  retrieve P env (Some token) = InvalidTokenError <->
  token <> [] /\
  exists e, decryptData P token (getMasterKey P (SECRET_KEY env)) = Throw e.
Proof.
  split.
  - destruct token as [|c s]; [discriminate|]. intros H.
    split; [discriminate|]. revert H. unfold retrieve, retrieve_try.
    destruct (decryptData P (c :: s) _) as [payload|e]; [|intros _; eauto].
    destruct (JSON_parse P payload) as [v|]; [|discriminate]. cbn [bind].
    destruct (destructure_id_key v) as [[id keyHex]|e]; [|discriminate].
    cbn [bind fst snd].
    destruct (D1_first P (DB env) id) as [[row|]|e]; try discriminate.
    cbn [bind].
    destruct (keyHex_bytes keyHex) as [keyBytes|e]; [|discriminate].
    cbn [bind].
    destruct (decryptData P (content row) keyBytes) as [text|e]; discriminate.
  - intros (Hn & e & He). exact (retrieve_token_throws P env token e Hn He).
Qed.

(** * The claims *)

(** C1, where it fails. A text that starts with U+FEFF is accepted and
    stored, and Retrieve on the token Share returned, against the store Share
    left, answers 200 with the text without its first character: the decoder
    takes the leading U+FEFF of the decrypted bytes for a byte order mark. *)
Theorem C1_leading_BOM_is_lost (P : Platform) (env : Bindings) (w : Draws)
    (rest : jsstring) :
  AEAD_correct P -> digest_256 P -> JSON_envelope P ->
  D1_fault w = false -> is_text rest -> valid_text (0xFEFF :: rest) ->
  exists token db',
    share P env w (0xFEFF :: rest) = (Ok (c_text token 200), db') /\
    retrieve P {| DB := db'; SECRET_KEY := SECRET_KEY env |} (Some token) =
    c_text rest 200 /\
    rest <> 0xFEFF :: rest.
Proof.
  intros Hc Hd Hj Hf Ht Hv. do 2 eexists.
  pose proof (share_accepted P env w (0xFEFF :: rest) Hd Hv Hf) as Hs.
  split; [exact Hs|]. split.
  - rewrite (share_then_retrieve P env w _ _ _ Hc Hd Hj Hs).
    rewrite text_codec_drops_BOM by exact Ht. reflexivity.
  - intros E. apply (f_equal length) in E. simpl in E. lia.
Qed.

Lemma C1_leading_BOM_is_lost_witness :
  Request_text [xef; xbb; xbf; xef; xbb; xbf; x41] = [0xFEFF; 65] /\
  exists token db',
    share reference sample_env sample_draws [0xFEFF; 65] = (Ok (c_text token 200), db') /\
    retrieve reference {| DB := db'; SECRET_KEY := SECRET_KEY sample_env |} (Some token) =
    c_text [65] 200 /\
    [65] <> [0xFEFF; 65].
Proof.
  split; [reflexivity|].
  apply (C1_leading_BOM_is_lost reference sample_env sample_draws [65]
           reference_AEAD_correct reference_digest_256 reference_JSON_envelope).
  - reflexivity.
  - split; [repeat constructor; unfold is_code_unit; lia | reflexivity].
  - split; [simpl; lia | simpl; lia].
Defined.

(** C2, as the code has it. For a token that is not empty: whenever opening
    it under the master key fails, because nothing in it matches, because the
    cipher rejects the decoded bytes (authentication failure, too few bytes),
    or for any other reason [decryptData] throws, the answer is the one
    invalid-token error; when the token opens and the opened text does not
    parse (or parses to [null]), the answer is the decryption error of the
    outer handler, status 500. *)
Theorem C2_unopened_token_is_invalid (P : Platform) (env : Bindings) (token : jsstring) :
  token <> [] ->
  (forall e, decryptData P token (getMasterKey P (SECRET_KEY env)) = Throw e ->
     retrieve P env (Some token) = InvalidTokenError) /\
  (String_match_pairs token = None ->
     retrieve P env (Some token) = InvalidTokenError) /\
  (forall bytes, hexToBytes token = Ok bytes ->
     AES_GCM_decrypt P (getMasterKey P (SECRET_KEY env))
       (take 12 bytes) (drop 12 bytes) = None ->
     retrieve P env (Some token) = InvalidTokenError) /\
  (forall payload,
     decryptData P token (getMasterKey P (SECRET_KEY env)) = Ok payload ->
     JSON_parse P payload = None \/ JSON_parse P payload = Some JNull ->
     retrieve P env (Some token) = DecryptionError).
Proof.
  intros Hn. repeat split.
  - intros e He. exact (retrieve_token_throws P env token e Hn He).
  - intros Hm. apply (retrieve_token_throws P env token TypeError Hn).
    apply decryptData_no_match, Hm.
  - intros bytes Hb Hd.
    destruct (decryptData_rejected P token _ bytes Hb Hd) as [E|E];
      exact (retrieve_token_throws P env token _ Hn E).
  - intros payload Hd Hp. rewrite retrieve_nonempty by exact Hn.
    unfold retrieve_try. rewrite Hd. destruct Hp as [-> | ->]; reflexivity.
Qed.

Lemma C2_unopened_token_is_invalid_witness :
  js "zz" <> [] /\
  retrieve reference sample_env (Some (js "zz")) = InvalidTokenError.
Proof.
  split; [discriminate|].
  refine (proj1 (proj2 (proj2 (C2_unopened_token_is_invalid reference sample_env
                                 (js "zz") _))) [x00] _ _).
  - discriminate.
  - reflexivity.
  - reflexivity.
Defined.

(** C2, as stated, fails: this token opens under the master key, its text is
    not JSON, and the answer is the decryption error, not the invalid-token
    error. *)
Lemma C2_counterexample_parse_failure :
  sample_token_not_JSON <> [] /\
  decryptData reference sample_token_not_JSON
    (getMasterKey reference (SECRET_KEY sample_env)) = Ok (js "not json") /\
  JSON_parse reference (js "not json") = None /\
  retrieve reference sample_env (Some sample_token_not_JSON) = DecryptionError /\
  retrieve reference sample_env (Some sample_token_not_JSON) <> InvalidTokenError.
Proof.
  repeat split; try (vm_compute; reflexivity); vm_compute; discriminate.
Qed.

(** C3. In every state the Worker reaches from the empty table, each row and
    each statement of the journal is the triple of an identifier, a sealed
    content and a time; a Share call leaves the database as it was or adds
    one such record and nothing else; and the data key enters the store only
    as the key under which the content was sealed: two calls that agree on
    identifier, sealed content, time and fault leave the same database,
    whatever their keys are. *)
Theorem C3_store_holds_only_sealed_records (P : Platform) (secret : jsstring)
    (db : D1Database) :
  reachable P secret db ->
  (forall id row, shares db !! id = Some row ->
     exists w text, valid_text text /\ id = share_id w /\
       row = {| content := sealed P text (share_key w) (content_iv_source w);
                created_at := Date_now w |}) /\
  Forall (fun statement =>
            exists w text, valid_text text /\
              statement = INSERT_INTO_shares (share_id w)
                            (sealed P text (share_key w) (content_iv_source w))
                            (Date_now w))
         (journal db) /\
  (forall w text,
     snd (share P {| DB := db; SECRET_KEY := secret |} w text) = db \/
     snd (share P {| DB := db; SECRET_KEY := secret |} w text) =
       {| shares := <[share_id w :=
                        {| content := sealed P text (share_key w) (content_iv_source w);
                           created_at := Date_now w |}]> (shares db);
          journal := journal db ++
            [INSERT_INTO_shares (share_id w)
               (sealed P text (share_key w) (content_iv_source w)) (Date_now w)] |}) /\
  (forall w w' text,
     share_id w = share_id w' ->
     sealed P text (share_key w) (content_iv_source w) =
       sealed P text (share_key w') (content_iv_source w') ->
     Date_now w = Date_now w' -> D1_fault w = D1_fault w' ->
     snd (share P {| DB := db; SECRET_KEY := secret |} w text) =
     snd (share P {| DB := db; SECRET_KEY := secret |} w' text)).
Proof.
  intros Hr. split; [|split; [|split]].
  - induction Hr as [|db w text Hr IH].
    + intros id row H. unfold empty_database in H. cbn [shares] in H.
      rewrite lookup_empty in H. discriminate H.
    + destruct (share_database_cases P {| DB := db; SECRET_KEY := secret |} w text)
        as [E | (Hv & _ & E)]; rewrite E; cbn [DB]; [exact IH|].
      intros id row. cbn [shares share_database].
      destruct (decide (share_id w = id)) as [<-|Hne].
      * rewrite lookup_insert_eq. intros [= <-]. exists w, text. auto.
      * rewrite lookup_insert_ne by exact Hne. apply IH.
  - induction Hr as [|db w text Hr IH]; [constructor|].
    destruct (share_database_cases P {| DB := db; SECRET_KEY := secret |} w text)
      as [E | (Hv & _ & E)]; rewrite E; cbn [DB]; [exact IH|].
    cbn [journal share_database]. apply Forall_app. split; [exact IH|].
    constructor; [|constructor]. exists w, text. auto.
  - intros w text.
    destruct (share_database_cases P {| DB := db; SECRET_KEY := secret |} w text)
      as [E | (_ & _ & E)]; rewrite E; [left | right]; reflexivity.
  - intros w w' text Hid Hseal Hnow Hfault.
    destruct (le_lt_dec 1 (length text)) as [H1|H1];
      [destruct (Z_le_gt_dec (Z.of_nat (length text)) (1024 * 1024)) as [H2|H2]|].
    + rewrite !(share_valid_text P _ _ text (conj H1 H2)). rewrite <- Hfault.
      destruct (D1_fault w); [reflexivity|]. cbn [DB SECRET_KEY].
      assert (Hdb : share_database P db w text = share_database P db w' text).
      { unfold share_database, share_row. rewrite Hid, Hseal, Hnow. reflexivity. }
      rewrite Hdb. do 2 destruct (encryptData _ _ _ _); reflexivity.
    + destruct (share_invalid_text P {| DB := db; SECRET_KEY := secret |} w text) as [E|E];
        [unfold valid_text; lia | ..];
      destruct (share_invalid_text P {| DB := db; SECRET_KEY := secret |} w' text) as [E'|E'];
        try (unfold valid_text; lia); rewrite E, E'; reflexivity.
    + destruct (share_invalid_text P {| DB := db; SECRET_KEY := secret |} w text) as [E|E];
        [unfold valid_text; lia | ..];
      destruct (share_invalid_text P {| DB := db; SECRET_KEY := secret |} w' text) as [E'|E'];
        try (unfold valid_text; lia); rewrite E, E'; reflexivity.
Qed.

Lemma C3_store_holds_only_sealed_records_witness :
  reachable reference (SECRET_KEY sample_env)
    (snd (share reference sample_env sample_draws hello_world)) /\
  Forall (fun statement =>
            exists w text, valid_text text /\
              statement = INSERT_INTO_shares (share_id w)
                            (sealed reference text (share_key w) (content_iv_source w))
                            (Date_now w))
         (journal (snd (share reference sample_env sample_draws hello_world))).
Proof.
  assert (Hr : reachable reference (SECRET_KEY sample_env)
                 (snd (share reference sample_env sample_draws hello_world))).
  { exact (reachable_share reference (SECRET_KEY sample_env) empty_database
             sample_draws hello_world (reachable_empty _ _)). }
  split; [exact Hr|].
  exact (proj1 (proj2 (C3_store_holds_only_sealed_records reference
                         (SECRET_KEY sample_env) _ Hr))).
Defined.



(** C5, as the code has it. Share has returned a token and left a store; one
    bit of one character of the content stored for the token is inverted.
    Retrieve then either fails with the decryption error, status 500, or
    answers exactly as it does on the untouched store; it fails whenever the
    bytes that the stored text decodes to have changed; and the decryption
    error is not the invalid-token error.  (The stored content is hex text:
    inverting the bit that turns [a]..[f] into [A]..[F] leaves the decoded
    bytes as they were.) *)
Theorem C5_tampered_content_never_yields_altered_text (P : Platform)
    (env : Bindings) (w : Draws) (text token : jsstring) (db' : D1Database)
    (i : nat) (j : Z) :
  AEAD_correct P -> AEAD_detects_byte_change P -> digest_256 P -> JSON_envelope P ->
  share P env w text = (Ok (c_text token 200), db') ->
  (i < length (sealed P text (share_key w) (content_iv_source w)))%nat ->
  0 <= j < 16 ->
  let stored := sealed P text (share_key w) (content_iv_source w) in
  let untouched :=
    retrieve P {| DB := db'; SECRET_KEY := SECRET_KEY env |} (Some token) in
  let tampered :=
    retrieve P {| DB := tamper db' (share_id w) i j; SECRET_KEY := SECRET_KEY env |}
      (Some token) in
  shares db' !! share_id w = Some {| content := stored; created_at := Date_now w |} /\
  (tampered = DecryptionError \/ tampered = untouched) /\
  (decode_pairs (flip_bit i j stored) <> decode_pairs stored ->
   tampered = DecryptionError) /\
  DecryptionError <> InvalidTokenError /\ DecryptionError <> untouched.
Proof.
  intros Hc Hi Hd Hj Hs Hlen Hbit stored untouched tampered.
  destruct (share_returns_token P env w text token db' Hs) as (_ & _ & _ & -> & ->).
  split; [cbn [shares share_database]; apply lookup_insert_eq|].
  assert (Hu : untouched = c_text (TextDecoder_decode (TextEncoder_encode text)) 200)
    by (apply retrieve_after_share; assumption).
  destruct (retrieve_tampered P env w text i j Hc Hi Hd Hj Hlen Hbit) as [[He Hr]|[Hn Hr]];
    fold tampered in Hr.
  - repeat split.
    + right. congruence.
    + intros Hne. contradiction.
    + discriminate.
    + rewrite Hu. discriminate.
  - repeat split.
    + left. exact Hr.
    + intros _. exact Hr.
    + discriminate.
    + rewrite Hu. discriminate.
Qed.

Lemma C5_tampered_content_never_yields_altered_text_witness :
  (0 < length (sealed reference hello_world (share_key sample_draws)
                 (content_iv_source sample_draws)))%nat /\
  0 <= 0 < 16 /\
  (retrieve reference
     {| DB := tamper (share_database reference (DB sample_env) sample_draws hello_world)
                (share_id sample_draws) 0 0;
        SECRET_KEY := SECRET_KEY sample_env |}
     (Some (share_token reference (SECRET_KEY sample_env) sample_draws)) = DecryptionError \/
   retrieve reference
     {| DB := tamper (share_database reference (DB sample_env) sample_draws hello_world)
                (share_id sample_draws) 0 0;
        SECRET_KEY := SECRET_KEY sample_env |}
     (Some (share_token reference (SECRET_KEY sample_env) sample_draws)) =
   retrieve reference
     {| DB := share_database reference (DB sample_env) sample_draws hello_world;
        SECRET_KEY := SECRET_KEY sample_env |}
     (Some (share_token reference (SECRET_KEY sample_env) sample_draws))).
Proof.
  assert (Hl : (0 < length (sealed reference hello_world (share_key sample_draws)
                              (content_iv_source sample_draws)))%nat)
    by (vm_compute; lia).
  split; [exact Hl|]. split; [lia|].
  exact (proj1 (proj2 (C5_tampered_content_never_yields_altered_text reference
                         sample_env sample_draws hello_world _ _ 0%nat 0
                         reference_AEAD_correct reference_AEAD_detects_byte_change
                         reference_digest_256 reference_JSON_envelope sample_share
                         Hl ltac:(lia)))).
Defined.

(** C5, as stated, fails: inverting bit 5 of the character at index 21 of the
    stored content, an [a], changes the stored content and Retrieve still
    answers 200 with the text. *)
Lemma C5_counterexample_case_flip :
  share reference sample_env sample_draws hello_world =
    (Ok (c_text (share_token reference (SECRET_KEY sample_env) sample_draws) 200),
     share_database reference (DB sample_env) sample_draws hello_world) /\
  content (share_row reference sample_draws hello_world) !! 21%nat = Some 97 /\
  flip_bit 21 5 (content (share_row reference sample_draws hello_world)) !! 21%nat =
    Some 65 /\
  retrieve reference
    {| DB := tamper (share_database reference (DB sample_env) sample_draws hello_world)
               (share_id sample_draws) 21 5;
       SECRET_KEY := SECRET_KEY sample_env |}
    (Some (share_token reference (SECRET_KEY sample_env) sample_draws)) =
  c_text hello_world 200 /\
  c_text hello_world 200 <> DecryptionError.
Proof.
  split; [exact sample_share|].
  split; [vm_compute; reflexivity|].
  split; [vm_compute; reflexivity|].
  split; [vm_compute; reflexivity | discriminate].
Qed.

(** C6. When the insert fails, Share answers with the storage error and no
    token, and nothing is stored; and a response with status 200, the only
    one that carries a token, is given only once the insert has gone through:
    the database then holds the record. *)
Theorem C6_failed_insert_returns_no_token (P : Platform) (env : Bindings)
    (w : Draws) (text : jsstring) :
  valid_text text ->
  (D1_fault w = true -> share P env w text = (Ok StorageError, DB env)) /\
  (forall r db', share P env w text = (Ok r, db') -> status r = 200 ->
     D1_fault w = false /\ db' = share_database P (DB env) w text /\
     shares db' !! share_id w = Some (share_row P w text)).
Proof.
  intros Hv. rewrite (share_valid_text P env w text Hv). split.
  - intros ->. reflexivity.
  - intros r db'. destruct (D1_fault w).
    + intros [= <- <-] Hs. discriminate Hs.
    + destruct (encryptData _ _ _ _); intros [= <- <-] _.
      repeat split. cbn [shares share_database]. apply lookup_insert_eq.
Qed.

Lemma C6_failed_insert_returns_no_token_witness :
  valid_text hello_world /\
  share reference sample_env sample_draws_fault hello_world =
  (Ok StorageError, DB sample_env).
Proof.
  split; [exact valid_text_hello_world|].
  exact (proj1 (C6_failed_insert_returns_no_token reference sample_env
                  sample_draws_fault hello_world valid_text_hello_world) eq_refl).
Defined.

(** C7, as the code has it. [decryptData] on a hex string that is not empty
    and a key of an AES length returns a text or throws the one error
    [Decryption failed]: it does so when the cipher rejects the bytes, and it
    does so when the blob has fewer than the 28 bytes of a nonce and a tag.
    Outside that domain it throws something else: a TypeError on a string
    with nothing to match, such as the empty string, a DataError on a key of
    another length.  Retrieve answers a token that is not empty with the
    invalid-token error exactly when [decryptData] throws on it, whatever it
    throws: so for a token with nothing to decode and for a token of fewer
    than 55 characters.  A token is not rejected for its form alone: the hex
    of a blob followed by a line terminator is answered as the hex itself. *)
Theorem C7_decryptData_fails_uniformly (P : Platform) :
  AEAD_rejects_short P ->
  (forall hexStr keyBytes,
     is_hex_string hexStr -> importKey keyBytes = Ok keyBytes ->
     (exists plaintext, decryptData P hexStr keyBytes = Ok plaintext) \/
     decryptData P hexStr keyBytes = Throw (Error "Decryption failed")) /\
  (forall hexStr keyBytes bytes,
     hexToBytes hexStr = Ok bytes -> importKey keyBytes = Ok keyBytes ->
     AES_GCM_decrypt P keyBytes (take 12 bytes) (drop 12 bytes) = None ->
     decryptData P hexStr keyBytes = Throw (Error "Decryption failed")) /\
  (forall hexStr keyBytes,
     is_hex_string hexStr -> importKey keyBytes = Ok keyBytes ->
     (length hexStr < 55)%nat ->
     decryptData P hexStr keyBytes = Throw (Error "Decryption failed")) /\
  (forall hexStr keyBytes,
     String_match_pairs hexStr = None ->
     decryptData P hexStr keyBytes = Throw TypeError) /\
  (forall hexStr keyBytes bytes,
     hexToBytes hexStr = Ok bytes -> importKey keyBytes <> Ok keyBytes ->
     decryptData P hexStr keyBytes = Throw DataError) /\
  (forall env token,
     retrieve P env (Some token) = InvalidTokenError <->
     token <> [] /\
     exists e, decryptData P token (getMasterKey P (SECRET_KEY env)) = Throw e) /\
  (forall env token,
     token <> [] ->
     String_match_pairs token = None \/ (length token < 55)%nat ->
     retrieve P env (Some token) = InvalidTokenError) /\
  (forall env blob c,
     blob <> [] -> is_line_terminator c = true ->
     retrieve P env (Some (buf2hex blob ++ [c])) =
     retrieve P env (Some (buf2hex blob))).
Proof.
  intros Hs. split; [|split; [|split; [|split; [|split; [|split; [|split]]]]]].
  - intros hexStr key Hh Hk.
    destruct (hex_string_matches hexStr Hh) as (bytes & Hb & _).
    unfold decryptData. rewrite Hb. cbn [bind]. rewrite Hk. cbn [bind].
    destruct (AES_GCM_decrypt P key (take 12 bytes) (drop 12 bytes)).
    + left. eexists. reflexivity.
    + right. reflexivity.
  - intros hexStr key bytes Hb Hk Hd.
    unfold decryptData. rewrite Hb. cbn [bind]. rewrite Hk. cbn [bind].
    rewrite Hd. reflexivity.
  - intros hexStr key Hh Hk Hl.
    destruct (decryptData_short P hexStr key Hs Hl) as (e & -> & He).
    rewrite He; [reflexivity | exact Hk |].
    destruct (hex_string_matches hexStr Hh) as (bytes & Hb & _).
    unfold hexToBytes in Hb. destruct (String_match_pairs hexStr); discriminate.
  - intros hexStr key Hm. apply decryptData_no_match, Hm.
  - intros hexStr key bytes Hb Hk.
    unfold decryptData. rewrite Hb. cbn [bind].
    unfold importKey in *. destruct (_ || _); [contradiction|reflexivity].
  - intros env token. apply retrieve_invalid_token_iff.
  - intros env token Hn [Hm|Hl].
    + apply (retrieve_token_throws P env token TypeError Hn).
      apply decryptData_no_match, Hm.
    + destruct (decryptData_short P token (getMasterKey P (SECRET_KEY env)) Hs Hl)
        as (e & He & _).
      exact (retrieve_token_throws P env token e Hn He).
  - intros env blob c Hn Hc.
    assert (Hd : forall key, decryptData P (buf2hex blob ++ [c]) key =
                             decryptData P (buf2hex blob) key).
    { intros key. unfold decryptData.
      rewrite (hexToBytes_trailing_terminator blob c Hn Hc),
        (hexToBytes_buf2hex blob Hn). reflexivity. }
    destruct blob as [|b bs]; [contradiction|].
    rewrite buf2hex_cons.
    destruct (hex_pair_shape b) as (h & l & E & _). rewrite E in *.
    rewrite buf2hex_cons, E in Hd. cbn [app] in *.
    unfold retrieve, retrieve_try. rewrite Hd. reflexivity.
Qed.

Lemma C7_decryptData_fails_uniformly_witness :
  AEAD_rejects_short reference /\
  decryptData reference (js "00ff") (share_key sample_draws) =
    Throw (Error "Decryption failed") /\
  retrieve reference sample_env (Some [10; 13]) = InvalidTokenError /\
  retrieve reference sample_env (Some (js "00ff")) = InvalidTokenError.
Proof.
  pose proof (C7_decryptData_fails_uniformly reference reference_AEAD_rejects_short)
    as (_ & _ & Hshort & _ & _ & _ & Htoken & _).
  split; [exact reference_AEAD_rejects_short|]. split; [|split].
  - apply Hshort.
    + split; [discriminate | reflexivity].
    + apply importKey_share_key.
    + vm_compute. lia.
  - apply Htoken; [discriminate | left; reflexivity].
  - apply Htoken; [discriminate | right; vm_compute; lia].
Defined.

(** C7, as stated, fails.  On the empty string, and on a key of one byte,
    [decryptData] throws, and what it throws is not [Decryption failed].
    And a token that is not a hex string, of odd length, is not answered
    with the invalid-token error: the token of the sample call followed by a
    line feed is answered with the text. *)
Lemma C7_counterexample_other_outcomes :
  decryptData reference [] (share_key sample_draws) = Throw TypeError /\
  decryptData reference (js "00ff") [x00] = Throw DataError /\
  @Throw jsstring TypeError <> Throw (Error "Decryption failed") /\
  @Throw jsstring DataError <> Throw (Error "Decryption failed") /\
  forallb is_hex_digit
    (share_token reference (SECRET_KEY sample_env) sample_draws ++ [10]) = false /\
  Nat.odd (length (share_token reference (SECRET_KEY sample_env) sample_draws ++ [10]))
    = true /\
  retrieve reference
    {| DB := share_database reference (DB sample_env) sample_draws hello_world;
       SECRET_KEY := SECRET_KEY sample_env |}
    (Some (share_token reference (SECRET_KEY sample_env) sample_draws ++ [10])) =
  c_text hello_world 200 /\
  c_text hello_world 200 <> InvalidTokenError.
Proof.
  repeat split; try (vm_compute; reflexivity); discriminate.
Qed.

(** C8. When the token opens under the master key and its text parses to an
    envelope, a value with a string under [id] (and whatever under [key]),
    and the store has no record under that identifier, Retrieve answers with
    the not-found error (404), which is not the invalid-token error (400). *)
Theorem C8_missing_record_is_not_found (P : Platform) (env : Bindings)
    (token payload id : jsstring) (v : JSValue) (keyHex : option JSValue) :
  token <> [] ->
  decryptData P token (getMasterKey P (SECRET_KEY env)) = Ok payload ->
  JSON_parse P payload = Some v ->
  destructure_id_key v = Ok (Some (JString id), keyHex) ->
  shares (DB env) !! id = None ->
  retrieve P env (Some token) = NotFoundError /\
  NotFoundError <> InvalidTokenError /\
  status NotFoundError = 404 /\ status InvalidTokenError = 400.
Proof.
  intros Hn Hd Hp Hk Hs. split; [|repeat split; discriminate].
  rewrite retrieve_nonempty by exact Hn.
  rewrite (retrieve_try_parsed P env token payload v id keyHex Hd Hp Hk).
  rewrite Hs. reflexivity.
Qed.

Lemma C8_missing_record_is_not_found_witness :
  share_token reference (SECRET_KEY sample_env) sample_draws <> [] /\
  shares (DB sample_env) !! share_id sample_draws = None /\
  retrieve reference sample_env
    (Some (share_token reference (SECRET_KEY sample_env) sample_draws)) = NotFoundError.
Proof.
  split; [vm_compute; discriminate|]. split; [reflexivity|].
  refine (proj1 (C8_missing_record_is_not_found reference sample_env
            (share_token reference (SECRET_KEY sample_env) sample_draws)
            (share_payload reference sample_draws)
            (share_id sample_draws)
            (envelope (share_id sample_draws) (buf2hex (share_key sample_draws)))
            (Some (JString (buf2hex (share_key sample_draws))))
            _ _ _ _ _)).
  - vm_compute. discriminate.
  - vm_compute. reflexivity.
  - vm_compute. reflexivity.
  - reflexivity.
  - reflexivity.
Defined.





(** * Further properties *)

(** The dangling reference: a token of Share whose record is no longer in the
    store. *)
Lemma dangling_token_not_found (P : Platform) (env : Bindings) (w : Draws) :
  AEAD_correct P -> digest_256 P -> JSON_envelope P ->
  shares (DB env) !! share_id w = None ->
  retrieve P env (Some (share_token P (SECRET_KEY env) w)) = NotFoundError.
Proof.
  intros Hc Hd Hj Hs. rewrite retrieve_share_token by assumption.
  rewrite Hs. reflexivity.
Qed.

(** The round trip at the level of the request: for every body whose text is
    accepted and does not start with U+FEFF. *)
Lemma post_share_retrieve_roundtrip (P : Platform) (env : Bindings) (w : Draws)
    (request_body : list byte) :
  AEAD_correct P -> digest_256 P -> JSON_envelope P ->
  valid_text (Request_text request_body) ->
  hd 0 (Request_text request_body) <> 0xFEFF -> D1_fault w = false ->
  exists token db',
    post_api_share P env w request_body = (Ok (c_text token 200), db') /\
    retrieve P {| DB := db'; SECRET_KEY := SECRET_KEY env |} (Some token) =
    c_text (Request_text request_body) 200.
Proof.
  intros Hc Hd Hj Hv Hb Hf. unfold post_api_share.
  apply share_retrieve_roundtrip; try assumption. apply Request_text_is_text.
Qed.

Lemma post_share_retrieve_roundtrip_witness :
  Request_text (TextEncoder_encode hello_world) = hello_world /\
  exists token db',
    post_api_share reference sample_env sample_draws (TextEncoder_encode hello_world) =
      (Ok (c_text token 200), db') /\
    retrieve reference {| DB := db'; SECRET_KEY := SECRET_KEY sample_env |} (Some token) =
    c_text (Request_text (TextEncoder_encode hello_world)) 200.
Proof.
  split; [reflexivity|].
  apply (post_share_retrieve_roundtrip reference sample_env sample_draws
           (TextEncoder_encode hello_world)
           reference_AEAD_correct reference_digest_256 reference_JSON_envelope).
  - split; vm_compute; [lia | discriminate].
  - vm_compute. discriminate.
  - reflexivity.
Defined.

Lemma dangling_token_not_found_witness :
  shares (DB sample_env) !! share_id sample_draws = None /\
  retrieve reference sample_env
    (Some (share_token reference (SECRET_KEY sample_env) sample_draws)) = NotFoundError.
Proof.
  split; [reflexivity|].
  exact (dangling_token_not_found reference sample_env sample_draws
           reference_AEAD_correct reference_digest_256 reference_JSON_envelope eq_refl).
Defined.

(** The hex codec of the tokens and of the stored content: decoding, as
    [decryptData] does it, inverts [buf2hex] on every buffer that is not
    empty. *)
Lemma hex_codec_roundtrip (buffer : list byte) :
  buffer <> [] -> hexToBytes (buf2hex buffer) = Ok buffer.
Proof. apply hexToBytes_buf2hex. Qed.

Lemma hex_codec_roundtrip_witness :
  [x00; xff; x2a] <> [] /\ hexToBytes (buf2hex [x00; xff; x2a]) = Ok [x00; xff; x2a].
Proof.
  split; [discriminate|].
  exact (hex_codec_roundtrip [x00; xff; x2a] ltac:(discriminate)).
Defined.

(** The tamper property on the bytes of the sealed content: when the stored
    content is the hex form of a blob that differs in one byte, so also in
    one bit, from the one Share sealed, Retrieve fails with the decryption
    error. *)
Lemma changed_blob_does_not_open (P : Platform) (env : Bindings) (w : Draws)
    (text token : jsstring) (db' : D1Database) (blob : list byte) :
  AEAD_correct P -> AEAD_detects_byte_change P -> digest_256 P -> JSON_envelope P ->
  share P env w text = (Ok (c_text token 200), db') ->
  differ_in_one_byte (sealed_bytes P text (share_key w) (content_iv_source w)) blob ->
  retrieve P {| DB := replace_content db' (share_id w) (buf2hex blob);
                SECRET_KEY := SECRET_KEY env |} (Some token) = DecryptionError.
Proof.
  intros Hc Hi Hd Hj Hs Hdiff.
  destruct (share_returns_token P env w text token db' Hs) as (_ & _ & _ & -> & ->).
  pose proof (retrieve_share_token P
                {| DB := replace_content (share_database P (DB env) w text)
                           (share_id w) (buf2hex blob);
                   SECRET_KEY := SECRET_KEY env |} w Hc Hd Hj) as H.
  cbn [DB SECRET_KEY] in H. rewrite H. clear H.
  cbn [shares replace_content share_database].
  rewrite lookup_alter_eq, lookup_insert_eq. cbn [fmap option_fmap option_map content].
  rewrite decryptData_blob;
    [|exact (differ_in_one_byte_nonempty _ _ Hdiff) | apply importKey_share_key].
  unfold sealed_bytes in Hdiff.
  rewrite (Hi (share_key w) (getRandomValues 12 (content_iv_source w))
             (TextEncoder_encode text) _ (importKey_share_key w)
             (length_getRandomValues _ _) Hdiff).
  reflexivity.
Qed.

Lemma sample_blob_differs :
  differ_in_one_byte
    (sealed_bytes reference hello_world (share_key sample_draws)
       (content_iv_source sample_draws))
    sample_blob_changed.
Proof. vm_compute. constructor. discriminate. Qed.

Lemma changed_blob_does_not_open_witness :
  retrieve reference
    {| DB := replace_content
               (share_database reference (DB sample_env) sample_draws hello_world)
               (share_id sample_draws) (buf2hex sample_blob_changed);
       SECRET_KEY := SECRET_KEY sample_env |}
    (Some (share_token reference (SECRET_KEY sample_env) sample_draws)) =
  DecryptionError.
Proof.
  exact (changed_blob_does_not_open reference sample_env sample_draws hello_world _ _ _
           reference_AEAD_correct reference_AEAD_detects_byte_change
           reference_digest_256 reference_JSON_envelope sample_share
           sample_blob_differs).
Defined.
(** * Further properties of the helpers and of the handlers *)

(** ** The hex text of tokens and of stored content *)

Lemma buf2hex_digits (buffer : list byte) :
  forallb is_lower_hex_digit (buf2hex buffer) = true.
Proof.
  induction buffer as [|b bs IH]; [reflexivity|].
  rewrite buf2hex_cons, forallb_app, IH.
  destruct (hex_pair_digits b) as (h & l & -> & Hh & Hl).
  cbn [forallb]. rewrite Hh, Hl. reflexivity.
Qed.

(** [buf2hex] writes two characters for every byte, digits and the letters
    [a] to [f] only. *)
Lemma buf2hex_lower_hex (buffer : list byte) :
  length (buf2hex buffer) = (2 * length buffer)%nat /\
  forallb is_lower_hex_digit (buf2hex buffer) = true.
Proof. split; [apply length_buf2hex | apply buf2hex_digits]. Qed.

Lemma regex_pairs_nil (s : jsstring) :
  regex_pairs s = [] <-> forallb is_line_terminator s = true.
Proof.
  induction s as [|c|c d rest IH1 IH2] using jsstring_pair_ind.
  - split; reflexivity.
  - cbn [regex_pairs forallb]. destruct (is_line_terminator c); split;
      first [reflexivity | discriminate].
  - change (regex_pairs (c :: d :: rest)) with
      (if is_line_terminator c then regex_pairs (d :: rest)
       else if is_line_terminator d then [c] :: regex_pairs rest
            else [c; d] :: regex_pairs rest).
    change (forallb is_line_terminator (c :: d :: rest)) with
      (is_line_terminator c && forallb is_line_terminator (d :: rest)).
    destruct (is_line_terminator c); cbn [andb]; [exact IH2|].
    destruct (is_line_terminator d); split; discriminate.
Qed.

(** The decoding at the head of [decryptData] throws exactly on a string of
    line terminators, the empty string among them, and what it throws is a
    TypeError; on every other string it returns at least one byte and at
    most one for two characters, whatever the characters are. *)
Lemma hexToBytes_throws (s : jsstring) :
  (hexToBytes s = Throw TypeError <-> forallb is_line_terminator s = true) /\
  (forall e, hexToBytes s = Throw e -> e = TypeError) /\
  (forall bytes, hexToBytes s = Ok bytes ->
     bytes <> [] /\ (2 * length bytes <= length s + 1)%nat).
Proof.
  unfold hexToBytes, String_match_pairs.
  pose proof (regex_pairs_nil s) as Hnil.
  pose proof (length_regex_pairs s) as Hlen.
  destruct (regex_pairs s) as [|chunk chunks] eqn:E.
  - split; [|split].
    + split; intros _; [apply Hnil|]; reflexivity.
    + intros e [= <-]. reflexivity.
    + discriminate.
  - split; [|split].
    + split; [discriminate|]. intros H. apply Hnil in H. discriminate.
    + discriminate.
    + intros bytes [= <-]. split; [discriminate|].
      cbn [map length] in *. rewrite length_map. lia.
Qed.

Lemma hex_digit_cases (c : Z) :
  is_hex_digit c = true ->
  In c [48; 49; 50; 51; 52; 53; 54; 55; 56; 57; 65; 66; 67; 68; 69; 70;
        97; 98; 99; 100; 101; 102].
Proof.
  unfold is_hex_digit, is_lower_hex_digit.
  rewrite !orb_true_iff, !andb_true_iff, !Z.leb_le. cbn [In]. lia.
Qed.

Lemma parseInt16_upper_1 (c : Z) :
  is_hex_digit c = true -> parseInt16 [ascii_upper c] = parseInt16 [c].
Proof. intros Hc. apply hex_digit_cases in Hc; each_case Hc; reflexivity. Qed.

Lemma parseInt16_upper_2 (c d : Z) :
  is_hex_digit c = true -> is_hex_digit d = true ->
  parseInt16 [ascii_upper c; ascii_upper d] = parseInt16 [c; d].
Proof.
  intros Hc Hd. apply hex_digit_cases in Hc, Hd;
  each_case Hc; each_case Hd; reflexivity.
Qed.

Lemma hex_digit_matches (c : Z) :
  is_hex_digit c = true ->
  is_line_terminator c = false /\ is_line_terminator (ascii_upper c) = false.
Proof. intros Hc. apply hex_digit_cases in Hc; each_case Hc; split; reflexivity. Qed.

Lemma decode_pairs_upper (s : jsstring) :
  forallb is_hex_digit s = true ->
  decode_pairs (map ascii_upper s) = decode_pairs s.
Proof.
  induction s as [|c|c d rest IH _] using jsstring_pair_ind; intros H.
  - reflexivity.
  - cbn [forallb] in H. apply andb_true_iff in H as [Hc _].
    destruct (hex_digit_matches c Hc) as [Hm Hu].
    unfold decode_pairs. cbn [map regex_pairs]. rewrite Hm, Hu. cbn [map].
    rewrite parseInt16_upper_1 by exact Hc. reflexivity.
  - cbn [forallb] in H. apply andb_true_iff in H as [Hc H].
    apply andb_true_iff in H as [Hd H].
    destruct (hex_digit_matches c Hc) as [Hmc Huc].
    destruct (hex_digit_matches d Hd) as [Hmd Hud].
    cbn [map]. rewrite !decode_pairs_two by assumption.
    rewrite parseInt16_upper_2 by assumption. rewrite IH by exact H. reflexivity.
Qed.

Lemma hexToBytes_cases (s : jsstring) :
  hexToBytes s = match decode_pairs s with
                 | [] => Throw TypeError
                 | bytes => Ok bytes
                 end.
Proof.
  unfold hexToBytes, String_match_pairs, decode_pairs.
  destruct (regex_pairs s); reflexivity.
Qed.

(** The case of the hex letters of a token is not significant: two strings of
    hex digits that differ in case only decode to the same bytes, are opened
    alike by [decryptData] and are answered alike by Retrieve. *)
Lemma token_case_is_ignored (P : Platform) (env : Bindings) (token token' : jsstring) :
  forallb is_hex_digit token = true -> forallb is_hex_digit token' = true ->
  map ascii_upper token = map ascii_upper token' ->
  hexToBytes token = hexToBytes token' /\
  (forall keyBytes, decryptData P token keyBytes = decryptData P token' keyBytes) /\
  retrieve P env (Some token) = retrieve P env (Some token').
Proof.
  intros H H' E.
  assert (Hb : hexToBytes token = hexToBytes token').
  { rewrite !hexToBytes_cases, <- (decode_pairs_upper token H),
      <- (decode_pairs_upper token' H'), E. reflexivity. }
  assert (Hd : forall keyBytes,
             decryptData P token keyBytes = decryptData P token' keyBytes).
  { intros keyBytes. unfold decryptData. rewrite Hb. reflexivity. }
  split; [exact Hb|]. split; [exact Hd|].
  destruct token as [|c s], token' as [|c' s']; try discriminate E; [reflexivity|].
  unfold retrieve, retrieve_try. rewrite Hd. reflexivity.
Qed.

Lemma token_case_is_ignored_witness :
  map ascii_upper (share_token reference (SECRET_KEY sample_env) sample_draws) <>
    share_token reference (SECRET_KEY sample_env) sample_draws /\
  retrieve reference
    {| DB := share_database reference (DB sample_env) sample_draws hello_world;
       SECRET_KEY := SECRET_KEY sample_env |}
    (Some (map ascii_upper (share_token reference (SECRET_KEY sample_env) sample_draws))) =
  c_text hello_world 200.
Proof.
  split; [vm_compute; discriminate|].
  pose proof (token_case_is_ignored reference
    {| DB := share_database reference (DB sample_env) sample_draws hello_world;
       SECRET_KEY := SECRET_KEY sample_env |}
    (map ascii_upper (share_token reference (SECRET_KEY sample_env) sample_draws))
    (share_token reference (SECRET_KEY sample_env) sample_draws)) as H.
  destruct H as (_ & _ & H); [vm_compute; reflexivity ..|].
  etransitivity; [exact H|]. vm_compute. reflexivity.
Defined.

(** ** [encryptData] and [decryptData] *)

(** Under a key of an AES length [decryptData] opens what [encryptData]
    sealed: it returns the text encoded and decoded again, which is the text
    itself when it is well formed and does not start with U+FEFF. *)
Lemma encrypt_then_decrypt (P : Platform) (plaintext : jsstring)
    (keyBytes : list byte) (iv_source : nat -> byte) :
  AEAD_correct P -> importKey keyBytes = Ok keyBytes ->
  exists blob,
    encryptData P plaintext keyBytes iv_source = Ok blob /\
    decryptData P blob keyBytes =
      Ok (TextDecoder_decode (TextEncoder_encode plaintext)) /\
    (is_text plaintext -> hd 0 plaintext <> 0xFEFF ->
     decryptData P blob keyBytes = Ok plaintext).
Proof.
  intros Hc Hk. exists (sealed P plaintext keyBytes iv_source).
  split; [apply encryptData_imported, Hk|].
  rewrite decryptData_sealed by assumption. split; [reflexivity|].
  intros Ht Hb. rewrite text_codec_roundtrip by assumption. reflexivity.
Qed.

Lemma encrypt_then_decrypt_witness :
  exists blob,
    encryptData reference hello_world (share_key sample_draws)
      (content_iv_source sample_draws) = Ok blob /\
    decryptData reference blob (share_key sample_draws) = Ok hello_world.
Proof.
  destruct (encrypt_then_decrypt reference hello_world (share_key sample_draws)
              (content_iv_source sample_draws) reference_AEAD_correct
              (importKey_share_key sample_draws)) as (blob & He & _ & Hd).
  exists blob. split; [exact He|].
  apply Hd; [apply hello_world_is_text | vm_compute; discriminate].
Defined.

(** The layout of the blob: under a key of an AES length [encryptData]
    returns the 24 hex characters of the IV followed by the hex of what
    AES-GCM returns, and the blob decodes to those bytes; under a key of
    another length it throws the DataError of [importKey]. *)
Lemma encryptData_layout (P : Platform) (plaintext : jsstring)
    (keyBytes : list byte) (iv_source : nat -> byte) :
  (importKey keyBytes = Ok keyBytes ->
   exists blob,
     encryptData P plaintext keyBytes iv_source = Ok blob /\
     take 24 blob = buf2hex (getRandomValues 12 iv_source) /\
     drop 24 blob =
       buf2hex (AES_GCM_encrypt P keyBytes (getRandomValues 12 iv_source)
                  (TextEncoder_encode plaintext)) /\
     hexToBytes blob =
       Ok (getRandomValues 12 iv_source ++
           AES_GCM_encrypt P keyBytes (getRandomValues 12 iv_source)
             (TextEncoder_encode plaintext))) /\
  (importKey keyBytes <> Ok keyBytes ->
   encryptData P plaintext keyBytes iv_source = Throw DataError).
Proof.
  set (iv := getRandomValues 12 iv_source).
  set (encrypted := AES_GCM_encrypt P keyBytes iv (TextEncoder_encode plaintext)).
  split.
  - intros Hk. exists (buf2hex iv ++ buf2hex encrypted).
    assert (Hl : length (buf2hex iv) = 24%nat).
    { rewrite length_buf2hex. unfold iv. rewrite length_getRandomValues. reflexivity. }
    split; [|split; [|split]].
    + unfold encryptData. rewrite Hk. cbn [bind]. rewrite buf2hex_app. reflexivity.
    + apply take_app_length'. symmetry. exact Hl.
    + apply drop_app_length'. symmetry. exact Hl.
    + rewrite <- buf2hex_app. apply hexToBytes_buf2hex.
      unfold iv, getRandomValues. discriminate.
  - intros Hk. unfold encryptData, importKey in *.
    destruct (_ || _); [contradiction|reflexivity].
Qed.

(** ** The answers of [/api/share] *)

(** When the digest has 256 bits the handler answers in one of four ways and
    never throws: an empty text and a text of more than [2^20] code units
    are rejected and nothing is stored; a failed insert is answered with the
    database error and nothing is stored; otherwise the answer is the token
    and the database has the new record. *)
Lemma share_outcomes (P : Platform) (env : Bindings) (w : Draws) (text : jsstring) :
  digest_256 P ->
  (text = [] /\ share P env w text = (Ok InputError_text_required, DB env)) \/
  (Z.of_nat (length text) > 1024 * 1024 /\
   share P env w text = (Ok InputError_text_too_large, DB env)) \/
  (valid_text text /\ D1_fault w = true /\
   share P env w text = (Ok StorageError, DB env)) \/
  (valid_text text /\ D1_fault w = false /\
   share P env w text =
   (Ok (c_text (share_token P (SECRET_KEY env) w) 200),
    share_database P (DB env) w text)).
Proof.
  intros Hd. destruct text as [|c rest] eqn:E.
  - left. split; reflexivity.
  - rewrite <- E. assert (Hn : (1 <= length text)%nat) by (subst text; cbn; lia).
    destruct (Z.gtb_spec (Z.of_nat (length text)) (1024 * 1024)) as [Hgt|Hle].
    + right. left. split; [lia|]. subst text. unfold share.
      rewrite (proj2 (Z.gtb_gt _ _)) by lia. reflexivity.
    + assert (Hv : valid_text text) by (split; lia).
      destruct (D1_fault w) eqn:Hf.
      * right. right. left. split; [exact Hv|]. split; [reflexivity|].
        rewrite share_valid_text by exact Hv. rewrite Hf. reflexivity.
      * right. right. right. split; [exact Hv|]. split; [reflexivity|].
        apply share_accepted; assumption.
Qed.

Lemma share_outcomes_witness :
  share reference sample_env sample_draws_fault hello_world =
  (Ok StorageError, DB sample_env).
Proof.
  destruct (share_outcomes reference sample_env sample_draws_fault hello_world
              reference_digest_256)
    as [[E _]|[[Hgt _]|[(_ & _ & H)|(_ & Hf & _)]]].
  - discriminate E.
  - vm_compute in Hgt. discriminate Hgt.
  - exact H.
  - discriminate Hf.
Defined.

(** A token that Share returns is made of the characters [0-9a-f], an even
    number of them and at least 24, so it needs no escaping in the link the
    page builds; the content stored for it is made of the same characters
    and starts with the hex of its IV. *)
Lemma share_token_is_hex (P : Platform) (env : Bindings) (w : Draws)
    (text token : jsstring) (db' : D1Database) :
  share P env w text = (Ok (c_text token 200), db') ->
  forallb is_lower_hex_digit token = true /\
  (exists n, length token = (2 * n)%nat /\ (12 <= n)%nat) /\
  exists row, shares db' !! share_id w = Some row /\
    forallb is_lower_hex_digit (content row) = true /\
    take 24 (content row) = buf2hex (getRandomValues 12 (content_iv_source w)).
Proof.
  intros Hs.
  destruct (share_returns_token P env w text token db' Hs) as (_ & _ & _ & -> & ->).
  unfold share_token, sealed. split; [apply buf2hex_digits|]. split.
  - eexists. split; [apply length_buf2hex|].
    unfold sealed_bytes. rewrite length_app, length_getRandomValues. lia.
  - exists (share_row P w text). split.
    + cbn [shares share_database]. apply lookup_insert_eq.
    + cbn [content share_row]. unfold sealed. split; [apply buf2hex_digits|].
      unfold sealed_bytes. rewrite buf2hex_app. apply take_app_length'.
      rewrite length_buf2hex, length_getRandomValues. reflexivity.
Qed.

Lemma share_token_is_hex_witness :
  exists token db',
    share reference sample_env sample_draws hello_world = (Ok (c_text token 200), db') /\
    forallb is_lower_hex_digit token = true.
Proof.
  eexists _, _. split; [exact sample_share|].
  exact (proj1 (share_token_is_hex reference sample_env sample_draws hello_world
                  _ _ sample_share)).
Defined.

(** ** The answers of [/api/retrieve] *)

(** Retrieve asks for a token exactly when the query parameter is missing or
    empty. *)
Lemma token_required_iff (P : Platform) (env : Bindings) (token : option jsstring) :
  retrieve P env token = InputError_token_required <->
  token = None \/ token = Some [].
Proof.
  split; [|intros [->| ->]; reflexivity].
  destruct token as [[|c s]|]; [right; reflexivity| |left; reflexivity].
  intros H. exfalso. revert H. unfold retrieve, retrieve_try.
  destruct (decryptData P (c :: s) _) as [payload|e]; [|discriminate].
  destruct (JSON_parse P payload) as [v|]; [|discriminate]. cbn [bind].
  destruct (destructure_id_key v) as [[id keyHex]|e]; [|discriminate].
  cbn [bind fst snd].
  destruct (D1_first P (DB env) id) as [[row|]|e]; try discriminate.
  cbn [bind].
  destruct (keyHex_bytes keyHex) as [keyBytes|e]; [|discriminate].
  cbn [bind].
  destruct (decryptData P (content row) keyBytes) as [text|e]; discriminate.
Qed.

(** Retrieve answers 200 only for a token that opens under the master key
    and parses, whose identifier has a record and whose key decodes, and the
    body of the answer is what the stored content opens to under that key. *)
Lemma retrieve_200_is_authentic (P : Platform) (env : Bindings)
    (token : option jsstring) :
  status (retrieve P env token) = 200 ->
  exists t payload v id keyHex row keyBytes,
    token = Some t /\ t <> [] /\
    decryptData P t (getMasterKey P (SECRET_KEY env)) = Ok payload /\
    JSON_parse P payload = Some v /\
    destructure_id_key v = Ok (id, keyHex) /\
    D1_first P (DB env) id = Ok (Some row) /\
    keyHex_bytes keyHex = Ok keyBytes /\
    decryptData P (content row) keyBytes = Ok (body (retrieve P env token)).
Proof.
  destruct token as [[|c s]|]; try discriminate.
  unfold retrieve, retrieve_try.
  destruct (decryptData P (c :: s) _) as [payload|e] eqn:Ht; [|discriminate].
  destruct (JSON_parse P payload) as [v|] eqn:Hp; [|discriminate]. cbn [bind].
  destruct (destructure_id_key v) as [[id keyHex]|e] eqn:Hv; [|discriminate].
  cbn [bind fst snd].
  destruct (D1_first P (DB env) id) as [[row|]|e] eqn:Hf; try discriminate.
  cbn [bind].
  destruct (keyHex_bytes keyHex) as [keyBytes|e] eqn:Hk; [|discriminate].
  cbn [bind].
  destruct (decryptData P (content row) keyBytes) as [text|e] eqn:Hc; [|discriminate].
  intros _. exists (c :: s), payload, v, id, keyHex, row, keyBytes.
  repeat split; try assumption; discriminate.
Qed.

Lemma retrieve_200_is_authentic_witness :
  exists t payload,
    decryptData reference t (getMasterKey reference (SECRET_KEY sample_env)) =
      Ok payload /\
    JSON_parse reference payload =
      Some (envelope (share_id sample_draws) (buf2hex (share_key sample_draws))).
Proof.
  destruct (retrieve_200_is_authentic reference
              {| DB := share_database reference (DB sample_env) sample_draws hello_world;
                 SECRET_KEY := SECRET_KEY sample_env |}
              (Some (share_token reference (SECRET_KEY sample_env) sample_draws)))
    as (t & payload & v & id & keyHex & row & keyBytes & Ht & _ & Hd & Hp & _);
    [vm_compute; reflexivity|].
  exists t, payload. split; [exact Hd|].
  injection Ht as <-. revert Hd. vm_compute. intros [= <-]. reflexivity.
Defined.

(** Once the record is found, whatever fails is a decryption error: for a
    token that opens and parses and whose record is present, when the key of
    the envelope does not decode, or the content does not open under it,
    Retrieve answers 500. *)
Lemma failure_after_fetch_is_decryption_error (P : Platform) (env : Bindings)
    (token payload : jsstring) (v : JSValue) (id : jsstring)
    (keyHex : option JSValue) (row : Row) :
  decryptData P token (getMasterKey P (SECRET_KEY env)) = Ok payload ->
  JSON_parse P payload = Some v ->
  destructure_id_key v = Ok (Some (JString id), keyHex) ->
  shares (DB env) !! id = Some row ->
  (forall keyBytes, keyHex_bytes keyHex = Ok keyBytes ->
     exists e, decryptData P (content row) keyBytes = Throw e) ->
  retrieve P env (Some token) = DecryptionError.
Proof.
  intros Ht Hp Hv Hr Hfail.
  assert (Hn : token <> []).
  { intros ->. unfold decryptData in Ht. discriminate Ht. }
  rewrite retrieve_nonempty by exact Hn.
  rewrite (retrieve_try_parsed P env token payload v id keyHex Ht Hp Hv), Hr.
  destruct (keyHex_bytes keyHex) as [keyBytes|e] eqn:Hk; [|reflexivity].
  destruct (Hfail keyBytes eq_refl) as (e & He). cbn [bind]. rewrite He. reflexivity.
Qed.

Lemma failure_after_fetch_is_decryption_error_witness :
  retrieve reference
    {| DB := share_database reference (DB sample_env) sample_draws hello_world;
       SECRET_KEY := SECRET_KEY sample_env |}
    (Some sample_token_empty_key) = DecryptionError /\
  retrieve reference sample_env (Some sample_token_empty_key) = NotFoundError.
Proof.
  split; [|vm_compute; reflexivity].
  apply (failure_after_fetch_is_decryption_error reference _ sample_token_empty_key
           (JSON_stringify reference (envelope (share_id sample_draws) []))
           (envelope (share_id sample_draws) []) (share_id sample_draws)
           (Some (JString [])) (share_row reference sample_draws hello_world)).
  - vm_compute. reflexivity.
  - vm_compute. reflexivity.
  - reflexivity.
  - vm_compute. reflexivity.
  - intros keyBytes Hk. discriminate Hk.
Defined.

(** A later Share leaves the other tokens alone: for a token that opens and
    parses to an identifier other than the one the Share call draws,
    Retrieve answers after the call what it answered before. *)
Lemma later_share_keeps_other_tokens (P : Platform) (env : Bindings) (w : Draws)
    (text token payload : jsstring) (v : JSValue) (id : jsstring)
    (keyHex : option JSValue) :
  decryptData P token (getMasterKey P (SECRET_KEY env)) = Ok payload ->
  JSON_parse P payload = Some v ->
  destructure_id_key v = Ok (Some (JString id), keyHex) ->
  id <> share_id w ->
  retrieve P {| DB := snd (share P env w text); SECRET_KEY := SECRET_KEY env |}
    (Some token) =
  retrieve P env (Some token).
Proof.
  intros Ht Hp Hv Hid.
  assert (Hn : token <> []).
  { intros ->. unfold decryptData in Ht. discriminate Ht. }
  rewrite !retrieve_nonempty by exact Hn.
  rewrite (retrieve_try_parsed P env token payload v id keyHex Ht Hp Hv).
  rewrite (retrieve_try_parsed P {| DB := snd (share P env w text);
                                    SECRET_KEY := SECRET_KEY env |}
             token payload v id keyHex Ht Hp Hv).
  cbn [DB]. destruct (share_database_cases P env w text) as [->|(_ & _ & ->)];
    [reflexivity|].
  cbn [shares share_database]. rewrite lookup_insert_ne by congruence. reflexivity.
Qed.

Lemma later_share_keeps_other_tokens_witness :
  retrieve reference
    {| DB := snd (share reference
                    {| DB := share_database reference (DB sample_env) sample_draws
                               hello_world;
                       SECRET_KEY := SECRET_KEY sample_env |}
                    sample_draws' (js "another text"));
       SECRET_KEY := SECRET_KEY sample_env |}
    (Some (share_token reference (SECRET_KEY sample_env) sample_draws)) =
  c_text hello_world 200.
Proof.
  etransitivity.
  - apply (later_share_keeps_other_tokens reference
             {| DB := share_database reference (DB sample_env) sample_draws hello_world;
                SECRET_KEY := SECRET_KEY sample_env |}
             sample_draws' (js "another text")
             (share_token reference (SECRET_KEY sample_env) sample_draws)
             (share_payload reference sample_draws)
             (envelope (share_id sample_draws) (buf2hex (share_key sample_draws)))
             (share_id sample_draws)
             (Some (JString (buf2hex (share_key sample_draws))))).
    + vm_compute. reflexivity.
    + vm_compute. reflexivity.
    + reflexivity.
    + vm_compute. discriminate.
  - vm_compute. reflexivity.
Defined.

(** ** The body of a request and its text *)

Lemma utf8_lead_needs (b : Z) :
  fst (utf8_lead b) = None -> bytes_needed (snd (utf8_lead b)) <> 0.
Proof.
  unfold utf8_lead.
  repeat match goal with |- context [if ?c then _ else _] => destruct c end;
    cbn; first [discriminate | lia].
Qed.

Lemma utf8_decode_nonempty (zs : list Z) (st : Utf8Decoder) :
  zs <> [] \/ bytes_needed st <> 0 -> utf8_decode st zs <> [].
Proof.
  revert st. induction zs as [|b rest IH]; intros st H.
  - destruct H as [H|H]; [contradiction|]. cbn [utf8_decode].
    rewrite (proj2 (Z.eqb_neq _ _) H). discriminate.
  - cbn [utf8_decode]. destruct (bytes_needed st =? 0) eqn:En.
    + destruct (fst (utf8_lead b)) eqn:El; cbn [emit]; [discriminate|].
      apply IH. right. apply utf8_lead_needs, El.
    + destruct (_ && _); [|discriminate].
      destruct (_ =? bytes_needed st); [discriminate|].
      apply IH. right. cbn. apply Z.eqb_neq, En.
Qed.

Lemma utf8_decode_pending_end (st : Utf8Decoder) :
  bytes_needed st <> 0 -> utf8_decode st [] = [0xFFFD].
Proof. intros H. cbn. rewrite (proj2 (Z.eqb_neq _ _) H). reflexivity. Qed.

(** One byte read in an open sequence: it continues the sequence or the
    decoder emits U+FFFD. *)
Lemma utf8_decode_pending_byte (st : Utf8Decoder) (b : Z) (rest : list Z) :
  bytes_needed st <> 0 ->
  0x80 <= lower_boundary st -> upper_boundary st <= 0xBF ->
  (lower_boundary st <= b <= upper_boundary st /\
   utf8_decode st (b :: rest) =
   if bytes_seen st + 1 =? bytes_needed st
   then (code_point st * 64 + (b - 0x80)) :: utf8_decode utf8_start rest
   else utf8_decode {| code_point := code_point st * 64 + (b - 0x80);
                       bytes_seen := bytes_seen st + 1;
                       bytes_needed := bytes_needed st;
                       lower_boundary := 0x80; upper_boundary := 0xBF |} rest) \/
  exists tail, utf8_decode st (b :: rest) = 0xFFFD :: tail.
Proof.
  intros Hn Hl Hu.
  destruct (Z_le_dec (lower_boundary st) b) as [H1|H1];
    [destruct (Z_le_dec b (upper_boundary st)) as [H2|H2]|].
  - left. split; [lia|]. apply utf8_decode_continue; lia.
  - right. eexists. apply utf8_decode_restart; [exact Hn|lia].
  - right. eexists. apply utf8_decode_restart; [exact Hn|lia].
Qed.

(** The only bytes that decode to a lone U+FEFF are its UTF-8 form. *)
Lemma utf8_decode_only_BOM (zs : list Z) :
  Forall (fun x => 0 <= x < 256) zs ->
  utf8_decode utf8_start zs = [0xFEFF] -> zs = [0xEF; 0xBB; 0xBF].
Proof.
  intros Hz H. destruct zs as [|a rest]; [discriminate H|].
  apply Forall_cons in Hz as [Ha Hrest].
  assert (Hcases : a <= 0x7F \/ (0x80 <= a <= 0xC1 \/ 0xF5 <= a) \/
                   0xC2 <= a <= 0xDF \/ 0xE0 <= a <= 0xEF \/ 0xF0 <= a <= 0xF4) by lia.
  destruct Hcases as [H1|[H2|[H3|[H4|H5]]]].
  - rewrite utf8_decode_1 in H by lia. injection H as H _. lia.
  - rewrite utf8_decode_lead, utf8_lead_other in H by exact H2. discriminate H.
  - rewrite utf8_decode_lead, utf8_lead_2 in H by exact H3. cbn [fst snd emit] in H.
    destruct rest as [|b r]; [discriminate H|].
    apply Forall_cons in Hrest as [Hb _].
    match type of H with utf8_decode ?st _ = _ =>
      destruct (utf8_decode_pending_byte st b r) as [[Hin E]|[tail E]];
        [cbn; lia ..| |] end.
    + rewrite E in H. cbn in Hin, H. injection H as H _. lia.
    + rewrite E in H. discriminate H.
  - rewrite utf8_decode_lead, utf8_lead_3 in H by exact H4. cbn [fst snd emit] in H.
    destruct rest as [|b r]; [discriminate H|].
    apply Forall_cons in Hrest as [Hb Hr].
    match type of H with utf8_decode ?st _ = _ =>
      destruct (utf8_decode_pending_byte st b r) as [[Hin E]|[tail E]];
        [cbn; destruct (a =? 0xE0), (a =? 0xED); lia ..| |] end;
      [|rewrite E in H; discriminate H].
    rewrite E in H. clear E. cbn [bytes_seen bytes_needed code_point] in H.
    simpl (0 + 1 =? 2) in H. cbv iota in H.
    cbn [lower_boundary upper_boundary] in Hin.
    destruct r as [|c r']; [discriminate H|].
    apply Forall_cons in Hr as [Hc _].
    match type of H with utf8_decode ?st _ = _ =>
      destruct (utf8_decode_pending_byte st c r') as [[Hin' E]|[tail E]];
        [cbn; lia ..| |] end;
      [|rewrite E in H; discriminate H].
    rewrite E in H. clear E. cbn [bytes_seen bytes_needed code_point] in H.
    simpl (0 + 1 + 1 =? 2) in H. cbv iota in H.
    cbn [lower_boundary upper_boundary] in Hin'.
    injection H as Hv Hnil.
    destruct r' as [|d r''].
    + assert (a = 0xEF /\ b = 0xBB /\ c = 0xBF) as (-> & -> & ->);
        [|reflexivity].
      destruct (a =? 0xE0), (a =? 0xED); lia.
    + exfalso. revert Hnil. apply utf8_decode_nonempty. left. discriminate.
  - rewrite utf8_decode_lead, utf8_lead_4 in H by exact H5. cbn [fst snd emit] in H.
    destruct rest as [|b r]; [discriminate H|].
    apply Forall_cons in Hrest as [Hb Hr].
    match type of H with utf8_decode ?st _ = _ =>
      destruct (utf8_decode_pending_byte st b r) as [[Hin E]|[tail E]];
        [cbn; destruct (a =? 0xF0), (a =? 0xF4); lia ..| |] end;
      [|rewrite E in H; discriminate H].
    rewrite E in H. clear E. cbn [bytes_seen bytes_needed code_point] in H.
    simpl (0 + 1 =? 3) in H. cbv iota in H.
    cbn [lower_boundary upper_boundary] in Hin.
    destruct r as [|c r']; [discriminate H|].
    apply Forall_cons in Hr as [Hc Hr].
    match type of H with utf8_decode ?st _ = _ =>
      destruct (utf8_decode_pending_byte st c r') as [[Hin' E]|[tail E]];
        [cbn; lia ..| |] end;
      [|rewrite E in H; discriminate H].
    rewrite E in H. clear E. cbn [bytes_seen bytes_needed code_point] in H.
    simpl (0 + 1 + 1 =? 3) in H. cbv iota in H.
    cbn [lower_boundary upper_boundary] in Hin'.
    destruct r' as [|d r'']; [discriminate H|].
    apply Forall_cons in Hr as [Hd _].
    match type of H with utf8_decode ?st _ = _ =>
      destruct (utf8_decode_pending_byte st d r'') as [[Hin'' E]|[tail E]];
        [cbn; lia ..| |] end;
      [|rewrite E in H; discriminate H].
    rewrite E in H. clear E. cbn [bytes_seen bytes_needed code_point] in H.
    simpl (0 + 1 + 1 + 1 =? 3) in H. cbv iota in H.
    cbn [lower_boundary upper_boundary] in Hin''.
    injection H as Hv _. exfalso.
    destruct (a =? 0xF0) eqn:E0, (a =? 0xF4); try apply Z.eqb_eq in E0; lia.
Qed.

Lemma concat_utf16_nil (cps : list Z) :
  concat (map utf16_encode_code_point cps) = [] -> cps = [].
Proof.
  destruct cps as [|c rest]; [reflexivity|]. cbn [map concat].
  unfold utf16_encode_code_point. destruct (c <? 0x10000); discriminate.
Qed.

Lemma map_Z_of_byte_range (bytes : list byte) :
  Forall (fun x => 0 <= x < 256) (map Z_of_byte bytes).
Proof. apply Forall_map, Forall_forall. intros b _. apply Z_of_byte_range. Qed.

(** The text of a request is empty for two bodies: the empty one and the
    byte order mark alone. *)
Lemma Request_text_empty (request_body : list byte) :
  Request_text request_body = [] <->
  request_body = [] \/ request_body = [xef; xbb; xbf].
Proof.
  split.
  - unfold Request_text, TextDecoder_decode. intros H. apply concat_utf16_nil in H.
    destruct (utf8_decode utf8_start (map Z_of_byte request_body)) as [|c cps] eqn:E.
    + left. destruct request_body as [|b bs]; [reflexivity|]. exfalso.
      revert E. apply utf8_decode_nonempty. left. discriminate.
    + right. cbn [strip_BOM] in H. destruct (Z.eqb_spec c 0xFEFF) as [->|]; [|discriminate H].
      subst cps. apply utf8_decode_only_BOM in E; [|apply map_Z_of_byte_range].
      destruct request_body as [|b1 [|b2 [|b3 [|b4 bs]]]]; try discriminate E.
      injection E as E1 E2 E3.
      f_equal; [|f_equal; [|f_equal]]; apply Z_of_byte_inj; assumption.
  - intros [->| ->]; reflexivity.
Qed.

Lemma share_text_required (P : Platform) (env : Bindings) (w : Draws) (text : jsstring) :
  fst (share P env w text) = Ok InputError_text_required <-> text = [].
Proof.
  split; [|intros ->; reflexivity].
  destruct text as [|c rest]; [reflexivity|]. intros H. exfalso. revert H.
  unfold share. destruct (_ >? _); [discriminate|].
  destruct (encryptData P _ _ _); [|discriminate].
  destruct (D1_run_insert _ _ _ _ _); [|discriminate].
  destruct (encryptData P _ _ _); discriminate.
Qed.

(** [/api/share] answers that a text is required, and stores nothing, for
    exactly two bodies: the empty body and the body that is a UTF-8 byte
    order mark and nothing else. *)
Lemma empty_body_is_rejected (P : Platform) (env : Bindings) (w : Draws)
    (request_body : list byte) :
  post_api_share P env w request_body = (Ok InputError_text_required, DB env) <->
  request_body = [] \/ request_body = [xef; xbb; xbf].
Proof.
  split.
  - intros H. apply Request_text_empty, (share_text_required P env w).
    unfold post_api_share in H. rewrite H. reflexivity.
  - intros [->| ->]; reflexivity.
Qed.

Lemma code_units_cons (c : Z) (cps : list Z) :
  code_units (c :: cps) = (if c <? 0x10000 then 1 else 2) + code_units cps.
Proof.
  unfold code_units. cbn [map concat]. rewrite length_app.
  unfold utf16_encode_code_point. destruct (c <? 0x10000); cbn [length]; lia.
Qed.

Lemma code_units_nonneg (cps : list Z) : 0 <= code_units cps.
Proof. unfold code_units. lia. Qed.

Lemma utf8_lead_shape (b : Z) :
  0 <= b < 256 ->
  (exists c, utf8_lead b = (Some c, utf8_start) /\ 0 <= c < 0x10000) \/
  (fst (utf8_lead b) = None /\ bytes_needed (snd (utf8_lead b)) <> 0 /\
   bytes_seen (snd (utf8_lead b)) = 0).
Proof.
  intros Hb.
  assert (Hcases : 0 <= b <= 0x7F \/ (0x80 <= b <= 0xC1 \/ 0xF5 <= b) \/
                   0xC2 <= b <= 0xDF \/ 0xE0 <= b <= 0xEF \/ 0xF0 <= b <= 0xF4) by lia.
  destruct Hcases as [H|[H|[H|[H|H]]]].
  - left. exists b. rewrite utf8_lead_1 by exact H. split; [reflexivity|lia].
  - left. exists 0xFFFD. rewrite utf8_lead_other by exact H. split; [reflexivity|lia].
  - right. rewrite utf8_lead_2 by exact H. cbn. repeat split; lia.
  - right. rewrite utf8_lead_3 by exact H. cbn. repeat split; lia.
  - right. rewrite utf8_lead_4 by exact H. cbn. repeat split; lia.
Qed.

(** The decoder writes at most one code unit for a byte, and at least one
    for three bytes; [bytes_seen st + 1] bytes of an open sequence have been
    read before. *)
Lemma utf8_decode_length (bs : list Z) (st : Utf8Decoder) :
  utf8_pending st -> Forall (fun b => 0 <= b < 256) bs ->
  code_units (utf8_decode st bs) <=
    Z.of_nat (length bs) + (if bytes_needed st =? 0 then 0 else bytes_seen st + 1) <=
    3 * code_units (utf8_decode st bs).
Proof.
  revert st. induction bs as [|b rest IH]; intros st Hst Hbs.
  - cbn [utf8_decode length].
    destruct Hst as [->|Hopen]; [unfold code_units; cbn; lia|].
    assert (Hn : bytes_needed st <> 0) by (decompose [and or] Hopen; lia).
    rewrite (proj2 (Z.eqb_neq _ _) Hn). rewrite code_units_cons.
    unfold code_units. cbn.
    decompose [and or] Hopen; lia.
  - inversion Hbs as [|? ? Hb Hrest]; subst.
    destruct (utf8_lead_pending b Hb) as [_ Hnext].
    pose proof (IH (snd (utf8_lead b)) Hnext Hrest) as IHlead.
    pose proof (code_units_nonneg (utf8_decode (snd (utf8_lead b)) rest)) as Hpos.
    assert (Hlead :
      code_units (emit (fst (utf8_lead b)) (utf8_decode (snd (utf8_lead b)) rest)) <=
        Z.of_nat (length rest) + 1 <=
        3 * code_units (emit (fst (utf8_lead b)) (utf8_decode (snd (utf8_lead b)) rest))).
    { destruct (utf8_lead_shape b Hb) as [(c & E & Hc)|(E & Hneed & Hseen)].
      - rewrite E in *. cbn [fst snd emit] in *. rewrite code_units_cons.
        rewrite (proj2 (Z.ltb_lt _ _)) by lia. cbn in IHlead. lia.
      - rewrite E. cbn [emit]. rewrite (proj2 (Z.eqb_neq _ _) Hneed), Hseen in IHlead.
        lia. }
    replace (Z.of_nat (length (b :: rest))) with (Z.of_nat (length rest) + 1)
      by (cbn [length]; lia).
    destruct Hst as [->|Hopen];
      [rewrite utf8_decode_lead; cbn [utf8_start bytes_needed Z.eqb]; lia|].
    assert (Hn : bytes_needed st <> 0) by (decompose [and or] Hopen; lia).
    assert (Hseen : 0 <= bytes_seen st <= 2) by (decompose [and or] Hopen; lia).
    rewrite (proj2 (Z.eqb_neq _ _) Hn).
    destruct (Z_le_dec (lower_boundary st) b) as [Hlo|Hlo];
      [destruct (Z_le_dec b (upper_boundary st)) as [Hhi|Hhi]|];
      [|rewrite utf8_decode_restart by lia; rewrite code_units_cons;
        rewrite (proj2 (Z.ltb_lt 0xFFFD 0x10000)) by lia; lia ..].
    assert (Hc : 0x80 <= b <= 0xBF).
    { decompose [and or] Hopen;
        repeat match goal with
               | H : _ = (if ?t then _ else _) |- _ => destruct t
               end; lia. }
    rewrite utf8_decode_continue by (first [exact Hn | lia]).
    pose proof (IH utf8_start (or_introl eq_refl) Hrest) as IHstart.
    cbn [utf8_start bytes_needed Z.eqb] in IHstart.
    destruct Hopen as [H|[H|[H|[H|[H|H]]]]];
      destruct H as (Hneed & Hseen' & Hl & Hu & Hcp);
      rewrite Hneed, Hseen';
      repeat match goal with
             | |- context [?a + 1 =? ?n] =>
               let v := eval vm_compute in (a + 1 =? n) in
               change (a + 1 =? n) with v
             end; cbv iota.
    + rewrite code_units_cons. destruct (_ <? _); lia.
    + match goal with |- context [utf8_decode ?st' rest] =>
        assert (Hst' : utf8_pending st') end.
      { right. right. right. left. cbn.
        repeat match goal with
               | H : _ = (if ?t then _ else _) |- _ => destruct t eqn:?
               end; lia. }
      specialize (IH _ Hst' Hrest). cbn [bytes_needed bytes_seen] in IH.
      match type of IH with context [?n =? 0] =>
        let v := eval vm_compute in (n =? 0) in change (n =? 0) with v in IH
      end. cbv iota in IH. lia.
    + rewrite code_units_cons. destruct (_ <? _); lia.
    + match goal with |- context [utf8_decode ?st' rest] =>
        assert (Hst' : utf8_pending st') end.
      { do 5 right. left. cbn.
        repeat match goal with
               | H : _ = (if ?t then _ else _) |- _ => destruct t eqn:?
               end; lia. }
      specialize (IH _ Hst' Hrest). cbn [bytes_needed bytes_seen] in IH.
      match type of IH with context [?n =? 0] =>
        let v := eval vm_compute in (n =? 0) in change (n =? 0) with v in IH
      end. cbv iota in IH. lia.
    + match goal with |- context [utf8_decode ?st' rest] =>
        assert (Hst' : utf8_pending st') end.
      { do 6 right. cbn. lia. }
      specialize (IH _ Hst' Hrest). cbn [bytes_needed bytes_seen] in IH.
      match type of IH with context [?n =? 0] =>
        let v := eval vm_compute in (n =? 0) in change (n =? 0) with v in IH
      end. cbv iota in IH. lia.
    + rewrite code_units_cons. rewrite (proj2 (Z.ltb_ge _ _)) by lia. lia.
Qed.

(** The text of a request has at most as many code units as the body has
    bytes, and at least a third of that, the byte order mark apart. *)
Lemma Request_text_length (request_body : list byte) :
  Z.of_nat (length (Request_text request_body)) <= Z.of_nat (length request_body) <=
  3 * Z.of_nat (length (Request_text request_body)) + 3.
Proof.
  pose proof (utf8_decode_length (map Z_of_byte request_body) utf8_start
                (or_introl eq_refl) (map_Z_of_byte_range request_body)) as H.
  cbn [utf8_start bytes_needed Z.eqb] in H. rewrite length_map in H.
  unfold Request_text, TextDecoder_decode.
  fold (code_units (strip_BOM (utf8_decode utf8_start (map Z_of_byte request_body)))).
  destruct (utf8_decode utf8_start (map Z_of_byte request_body)) as [|c cps];
    [cbn [strip_BOM]; lia|].
  cbn [strip_BOM]. destruct (Z.eqb_spec c 0xFEFF) as [->|_]; [|lia].
  rewrite code_units_cons in H. pose proof (code_units_nonneg cps).
  change (65279 <? 65536) with true in H. lia.
Qed.

Lemma share_too_large (P : Platform) (env : Bindings) (w : Draws) (text : jsstring) :
  fst (share P env w text) = Ok InputError_text_too_large <->
  Z.of_nat (length text) > 1024 * 1024.
Proof.
  split.
  - destruct text as [|c rest]; [discriminate|].
    unfold share. destruct (Z.gtb_spec (Z.of_nat (length (c :: rest))) (1024 * 1024));
      [lia|].
    destruct (encryptData P _ _ _); [|discriminate].
    destruct (D1_run_insert _ _ _ _ _); [|discriminate].
    destruct (encryptData P _ _ _); discriminate.
  - intros H. destruct text as [|c rest]; [cbn in H; lia|].
    unfold share. rewrite (proj2 (Z.gtb_gt _ _)) by lia. reflexivity.
Qed.

(** The size limit in bytes: a body of more than [3 * 2^20 + 3] bytes is
    always rejected as too large and nothing is stored; a body of at most
    [2^20] bytes is never rejected as too large. *)
Lemma size_limit_in_bytes (P : Platform) (env : Bindings) (w : Draws)
    (request_body : list byte) :
  (Z.of_nat (length request_body) > 3 * (1024 * 1024) + 3 ->
   post_api_share P env w request_body = (Ok InputError_text_too_large, DB env)) /\
  (Z.of_nat (length request_body) <= 1024 * 1024 ->
   fst (post_api_share P env w request_body) <> Ok InputError_text_too_large).
Proof.
  pose proof (Request_text_length request_body) as Hl. unfold post_api_share. split.
  - intros H.
    assert (Hs : Z.of_nat (length (Request_text request_body)) > 1024 * 1024) by lia.
    destruct (Request_text request_body) as [|c rest]; [cbn in Hs; lia|].
    unfold share. rewrite (proj2 (Z.gtb_gt _ _)) by lia. reflexivity.
  - intros H Hs. apply share_too_large in Hs. lia.
Qed.

